(** * The c10 dispatcher (aten/src/ATen/core/dispatch/Dispatcher.h)

    A shallow embedding of the dispatch key computation, the per-operator
    kernel table and the dispatcher's call path, followed by the properties
    the specification states about them. *)

From Stdlib Require Import NArith Lia Permutation DecimalString.
From stdpp Require Import base option list strings gmap.

Local Open Scope N_scope.

(** ** Tensor type ids and tensor type sets *)

(** [TensorTypeId] is an 8-bit enum; only [UndefinedTensorId] is named by
    the dispatcher.  An id is represented by its numeric value, which is
    also its priority. *)
Definition TensorTypeId : Type := N.

Definition UndefinedTensorId : TensorTypeId := 0.

(** Modelled from the spec: the class TensorTypeSet
    (c10/core/TensorTypeSet.h) is not among the sources.  The specification
    describes it as a fixed-size, bitset-like set of tags with union,
    difference and a highest-priority-member query, whose empty value
    stands for "undefined".  It is represented as the 64-bit word [repr_]
    in which bit [t - 1] is set when the tag [t] is a member. *)
Record TensorTypeSet : Type := mkTensorTypeSet { repr_ : N }.

Module TensorTypeSet.

Definition empty_set : TensorTypeSet := mkTensorTypeSet 0.

(** The set holding the one tag [t]; the undefined tag gives the empty
    set. *)
Definition of_id (t : TensorTypeId) : TensorTypeSet :=
  if t =? UndefinedTensorId then empty_set
  else mkTensorTypeSet (N.shiftl 1 (t - 1)).

Definition has (s : TensorTypeSet) (t : TensorTypeId) : bool :=
  negb (t =? UndefinedTensorId) && N.testbit (repr_ s) (t - 1).

(** [operator|] *)
Definition union (a b : TensorTypeSet) : TensorTypeSet :=
  mkTensorTypeSet (N.lor (repr_ a) (repr_ b)).

(** [operator-] : [repr_ & ~other.repr_] *)
Definition minus (a b : TensorTypeSet) : TensorTypeSet :=
  mkTensorTypeSet (N.ldiff (repr_ a) (repr_ b)).

Definition empty (s : TensorTypeSet) : bool := repr_ s =? 0.

(** The position of the most significant set bit, counted from one, and
    zero (the undefined id) for the empty set. *)
Definition highestPriorityTypeId (s : TensorTypeSet) : TensorTypeId :=
  N.size (repr_ s).

(** Sets that fit the 64-bit representation. *)
Definition fits (s : TensorTypeSet) : Prop := repr_ s < 2 ^ 64.

End TensorTypeSet.

(** ** Thread-local included and excluded sets *)

(** [c10::impl::LocalTensorTypeSet], as returned by
    [tls_local_tensor_type_set()]. *)
Record LocalTensorTypeSet : Type := mkLocalTensorTypeSet {
  included_ : TensorTypeSet;
  excluded_ : TensorTypeSet
}.

(** [impl::dispatchTypeId]: the thread-local state read by the function is
    the argument [local]. *)
Definition dispatchTypeId (local : LocalTensorTypeSet) (ts : TensorTypeSet)
  : TensorTypeId :=
  TensorTypeSet.highestPriorityTypeId
    (TensorTypeSet.minus
       (TensorTypeSet.union ts (included_ local)) (excluded_ local)).

(** ** Collecting the type set of a call's arguments *)

(** What the dispatcher is given from outside: the values it dispatches on
    (of which it reads only the type set), the boxed stack, the result of a
    typed call, the printer of type ids, and operator schemas with their
    names and their equality. *)
Class Collaborators : Type := {
  Tensor : Type;
  TensorOptions : Type;
  Other : Type;
  Stack : Type;
  Return : Type;
  tensor_type_set : Tensor -> TensorTypeSet;
  options_type_set : TensorOptions -> TensorTypeSet;
  toString : TensorTypeId -> string;
  FunctionSchema : Type;
  OperatorOptions : Type;
  operator_name : FunctionSchema -> string * string;
  schema_eq_dec :: EqDecision FunctionSchema
}.

(** An operator name: the name and the overload name. *)
Abbreviation OperatorName := (string * string)%type.

Section ArgumentTypeSet.
Context `{Collaborators}.

(** One argument of a typed call, by the overload of
    [MultiDispatchTensorTypeSet::operator()] that receives it. *)
Inductive Arg : Type :=
| ArgTensor (x : Tensor)
| ArgTensorOptions (x : TensorOptions)
| ArgTensorList (xs : list Tensor)
| ArgOther (x : Other).

(** [MultiDispatchTensorTypeSet::operator()]: the new value of the field
    [ts] after one argument is visited. *)
Definition visit (ts : TensorTypeSet) (a : Arg) : TensorTypeSet :=
  match a with
  | ArgTensor x => TensorTypeSet.union ts (tensor_type_set x)
  | ArgTensorOptions x => TensorTypeSet.union ts (options_type_set x)
  | ArgTensorList xs =>
      fold_left (fun ts x => TensorTypeSet.union ts (tensor_type_set x)) xs ts
  | ArgOther _ => ts
  end.

(** [detail::multi_dispatch_tensor_type_set]: [IterArgs::apply] visits the
    arguments from left to right, starting from the empty set. *)
Definition multi_dispatch_tensor_type_set (args : list Arg) : TensorTypeSet :=
  fold_left visit args TensorTypeSet.empty_set.

End ArgumentTypeSet.

(** ** Kernels *)

Section Kernels.
Context `{Collaborators}.

(** [KernelFunction]: an opaque callable with a boxed entry, which works
    on the stack, and typed entries, which take the arguments and give
    the result. *)
Record KernelFunction : Type := mkKernelFunction {
  kernel_callBoxed : Stack -> Stack;
  kernel_callUnboxed : list Arg -> Return;
  kernel_callUnboxedOnly : list Arg -> Return
}.

End Kernels.

(** ** The hash map behind the kernel table *)

(** Modelled from the spec: the container [ska::flat_hash_map] is not among
    the sources.  The specification asks of it a mapping from tag to kernel
    that holds at most one kernel per tag.  A map is represented by the
    sequence of entries its iterators walk through, from [begin()] to
    [end()].  A hash map promises no particular iteration order: where a new
    entry ends up, and whether the old entries move when the table grows, is
    the container's business.  That is the parameter [layout], of which only
    the fact that it permutes the entries is known. *)
Class HashLayout (V : Type) : Type := {
  layout : list (TensorTypeId * V) -> list (TensorTypeId * V);
  layout_perm : forall l, Permutation (layout l) l
}.

Module flat_hash_map.
Section Ops.
Context {V : Type} `{HashLayout V}.

Definition t : Type := list (TensorTypeId * V).

Fixpoint find (key : TensorTypeId) (m : t) : option V :=
  match m with
  | [] => None
  | (k, v) :: m' => if k =? key then Some v else find key m'
  end.

(** [emplace] leaves the map alone when the key is present, and says so
    with [false]; otherwise the entry is added. *)
Definition emplace (key : TensorTypeId) (value : V) (m : t) : t * bool :=
  match find key m with
  | Some _ => (m, false)
  | None => (layout ((key, value) :: m), true)
  end.

(** A write of [value] through the iterator that points at [key]. *)
Definition assign (key : TensorTypeId) (value : V) (m : t) : t :=
  map (fun kv => if fst kv =? key then (fst kv, value) else kv) m.

(** [erase] by key: the map without the key and the number of entries
    removed. *)
Definition erase (key : TensorTypeId) (m : t) : t * nat :=
  let kept := List.filter (fun kv => negb (fst kv =? key)) m in
  (kept, (length m - length kept)%nat).

Definition size (m : t) : nat := length m.

(** The keys in iteration order. *)
Definition keys (m : t) : list TensorTypeId := map fst m.

End Ops.
End flat_hash_map.

(** ** detail::KernelTable_ *)

Section KernelTableState.
Context `{Collaborators}.

Record KernelTable_ : Type := mkKernelTable {
  map_ : list (TensorTypeId * KernelFunction)
}.

End KernelTableState.

Module KernelTable_.
Section Methods.
Context `{Collaborators} `{HashLayout KernelFunction}.

Definition empty : KernelTable_ := mkKernelTable [].

Definition overwrite_warning (operator_name : string) (key : TensorTypeId)
  : string :=
  "Registered a kernel for operator " +:+ operator_name +:+
  " with dispatch key " +:+ toString key +:+
  " that overwrote a previously registered kernel with the same dispatch key for the same operator.".

(** [set]: the table afterwards and the warnings raised. *)
Definition set (key : TensorTypeId) (value : KernelFunction)
    (operator_name : string) (tbl : KernelTable_)
  : KernelTable_ * list string :=
  let emplaced := flat_hash_map.emplace key value (map_ tbl) in
  if negb (snd emplaced) then
    (mkKernelTable (flat_hash_map.assign key value (fst emplaced)),
     [overwrite_warning operator_name key])
  else
    (mkKernelTable (fst emplaced), []).

(** [removeIfExists]: the table afterwards, and whether the internal
    assertion on the number of removed entries held. *)
Definition removeIfExists (key : TensorTypeId) (operator_name : string)
    (tbl : KernelTable_) : KernelTable_ * bool :=
  let erased := flat_hash_map.erase key (map_ tbl) in
  (mkKernelTable (fst erased), (snd erased <=? 1)%nat).

(** [lookup]: [None] is the null pointer. *)
Definition lookup (key : TensorTypeId) (tbl : KernelTable_)
  : option KernelFunction :=
  flat_hash_map.find key (map_ tbl).

Definition size (tbl : KernelTable_) : nat := flat_hash_map.size (map_ tbl).

(** [list_all_dispatch_keys]: the stream starts with the bracket and the
    first key, and the loop appends one key per further entry. *)
Definition list_all_dispatch_keys (tbl : KernelTable_) : string :=
  match map_ tbl with
  | [] => "[]"
  | first :: rest =>
      fold_left (fun str kv => str +:+ ", " +:+ toString (fst kv)) rest
                ("[" +:+ toString (fst first))
      +:+ "]"
  end.

End Methods.
End KernelTable_.

(** ** The dispatch table of one operator *)

Section DispatchTableState.
Context `{Collaborators}.

(** The key extractor a dispatch table carries (DispatchKeyExtractor.h is
    not among the sources): one function per calling convention, each
    reading the thread-local sets. *)
Record DispatchKeyExtractor : Type := mkDispatchKeyExtractor {
  getDispatchKeyUnboxed : LocalTensorTypeSet -> list Arg -> option TensorTypeId;
  getDispatchKeyBoxed : LocalTensorTypeSet -> Stack -> option TensorTypeId
}.

(** Modelled from the spec: the class DispatchTable (DispatchTable.h) is
    not among the sources.  The specification's KernelTable is a mapping
    from tag to kernel plus one optional catchall kernel, with reads that
    answer "absent" rather than fail, and a listing of the registered
    tags for diagnostics. *)
Record DispatchTable : Type := mkDispatchTable {
  kernels_ : KernelTable_;
  catchallKernel_ : option KernelFunction;
  dispatchKeyExtractor_ : DispatchKeyExtractor;
  operatorName_ : string
}.

End DispatchTableState.

Module DispatchTable.
Section Methods.
Context `{Collaborators} `{HashLayout KernelFunction}.

Definition lookup (tbl : DispatchTable) (key : TensorTypeId)
  : option KernelFunction :=
  KernelTable_.lookup key (kernels_ tbl).

Definition lookupCatchallKernel (tbl : DispatchTable)
  : option KernelFunction :=
  catchallKernel_ tbl.

Definition listAllDispatchKeys (tbl : DispatchTable) : string :=
  KernelTable_.list_all_dispatch_keys (kernels_ tbl).

Definition operatorName (tbl : DispatchTable) : string := operatorName_ tbl.

Definition dispatchKeyExtractor (tbl : DispatchTable)
  : DispatchKeyExtractor :=
  dispatchKeyExtractor_ tbl.

End Methods.
End DispatchTable.

(** ** Failures *)

(** A call ends by returning or by throwing a [c10::Error], of which the
    message is kept.  The two other outcomes belong to the dispatcher's
    stateful methods: [Blocked] is a thread waiting for a mutex that
    another thread holds, and [Fault] is the dereference of an iterator
    that points at no node. *)
Inductive Outcome (A : Type) : Type :=
| Returned (a : A)
| Thrown (what : string)
| Blocked
| Fault.

Arguments Returned {A} a.
Arguments Thrown {A} what.
Arguments Blocked {A}.
Arguments Fault {A}.

(** The message of the first [TORCH_CHECK] of [dispatch_]. *)
Definition NoTaggedArguments (operator_name listing : string) : string :=
  "There were no tensor arguments to this function (e.g., you passed an " +:+
  "empty list of Tensors), but no fallback function is registered for schema " +:+
  operator_name +:+
  ".  This usually means that this function requires a non-empty list of Tensors.  " +:+
  "Available functions are " +:+ listing.

(** The message of the second [TORCH_CHECK] of [dispatch_]. *)
Definition NoKernelFound (operator_name dispatchKeyStr listing : string)
  : string :=
  "Didn't find kernel to dispatch to for operator '" +:+ operator_name +:+
  "'. Tried to look up kernel for dispatch key '" +:+ dispatchKeyStr +:+
  "'. Registered dispatch keys are: " +:+ listing.

(** ** The list of operators and the handles into it *)

(** [std::list]: every element lives in a node of its own, and an iterator
    is the address of a node.  [cells] holds the nodes by address, [order]
    links them from front to back, and [fresh] is the next address to be
    allocated. *)
Record stdlist (A : Type) : Type := mkStdlist {
  cells : gmap nat A;
  order : list nat;
  fresh : nat
}.

Arguments mkStdlist {A} cells order fresh.
Arguments cells {A} _.
Arguments order {A} _.
Arguments fresh {A} _.

Module stdlist.
Section Ops.
Context {A : Type}.

Definition nil : stdlist A := mkStdlist ∅ [] 0%nat.

(** [*it]; [None] when the iterator points at no node. *)
Definition deref (it : nat) (l : stdlist A) : option A := cells l !! it.

(** [emplace_back] followed by [--end()]: the list afterwards and the
    iterator to the new last element. *)
Definition emplace_back (x : A) (l : stdlist A) : stdlist A * nat :=
  (mkStdlist (<[fresh l := x]> (cells l)) (order l ++ [fresh l])
             (S (fresh l)),
   fresh l).

(** A write through an iterator. *)
Definition update (it : nat) (f : A -> A) (l : stdlist A) : stdlist A :=
  mkStdlist (alter f it (cells l)) (order l) (fresh l).

(** The elements from front to back. *)
Definition elements (l : stdlist A) : list A :=
  omap (fun it => cells l !! it) (order l).

(** Every node was allocated before [fresh]. *)
Definition allocated (l : stdlist A) : Prop :=
  forall it, is_Some (cells l !! it) -> (it < fresh l)%nat.

End Ops.
End stdlist.

Section DispatcherState.
Context `{Collaborators}.

(** Modelled from the spec: the class impl::OperatorEntry
    (OperatorEntry.h) is not among the sources.  The specification has it
    own one operator's schema, options and kernel table, and give read
    access to the table. *)
Record OperatorEntry : Type := mkOperatorEntry {
  schema_ : FunctionSchema;
  options_ : OperatorOptions;
  dispatchTable_ : DispatchTable
}.

(** Modelled from the spec: [OperatorEntry::readDispatchTable] is declared
    outside the sources too.  The specification gives readers the table
    without blocking: the functor is run on the entry's table. *)
Definition readDispatchTable {X : Type} (e : OperatorEntry)
    (functor : DispatchTable -> X) : X :=
  functor (dispatchTable_ e).

(** [Dispatcher::OperatorDef] *)
Record OperatorDef : Type := mkOperatorDef {
  op : OperatorEntry;
  refcount : nat
}.

(** Modelled from the spec: the constructor of impl::OperatorEntry is
    declared outside the sources.  A new entry holds the schema and the
    options it is given and a table without kernels; [extractor] is the key
    extractor that table is built with. *)
Definition new_OperatorEntry (extractor : DispatchKeyExtractor)
    (schema : FunctionSchema) (options : OperatorOptions) : OperatorEntry :=
  mkOperatorEntry schema options
    (mkDispatchTable (mkKernelTable []) None extractor
       (fst (operator_name schema) +:+ "." +:+ snd (operator_name schema))).

(** The constructor of [OperatorDef]: the entry, and a count of zero. *)
Definition new_OperatorDef (extractor : DispatchKeyExtractor)
    (schema : FunctionSchema) (options : OperatorOptions) : OperatorDef :=
  mkOperatorDef (new_OperatorEntry extractor schema options) 0.

(** [++refcount] *)
Definition bump_refcount (def : OperatorDef) : OperatorDef :=
  mkOperatorDef (op def) (S (refcount def)).

(** [OperatorHandle]: an iterator into [operators_]. *)
Record OperatorHandle : Type := mkOperatorHandle {
  operatorIterator_ : nat
}.

(** The state of a [Dispatcher].  [mutex_] says whether some thread holds
    the mutex.  The list of listeners is declared outside the sources;
    what is sent to it is recorded as an event. *)
Record Dispatcher : Type := mkDispatcher {
  operators_ : stdlist OperatorDef;
  operatorLookupTable_ : gmap (string * string) OperatorHandle;
  mutex_ : bool
}.

(** What a method does besides changing the dispatcher. *)
Inductive Event : Type :=
| MutexLock
| MutexUnlock
| OnOperatorRegistered (h : OperatorHandle).

(** The token a schema registration returns: it names what its release
    is to deregister. *)
Record SchemaRegistrationHandleRAII : Type := mkSchemaRegistrationHandleRAII {
  opHandle_ : OperatorHandle;
  registrationHandle_ : OperatorHandle * (string * string)
}.

End DispatcherState.

(** ** Methods on the dispatcher's state *)

(** A method takes the dispatcher to the dispatcher afterwards, the events
    it raised in order, and its outcome. *)
Definition Method `{Collaborators} (A : Type) : Type :=
  Dispatcher -> Dispatcher * list Event * Outcome A.

Module Method.
Section Ops.
Context `{Collaborators}.

Definition ret {A : Type} (a : A) : Method A :=
  fun d => (d, [], Returned a).

Definition bind {A B : Type} (m : Method A) (k : A -> Method B) : Method B :=
  fun d =>
    match m d with
    | (d1, ev1, Returned a) =>
        match k a d1 with
        | (d2, ev2, r) => (d2, ev1 ++ ev2, r)
        end
    | (d1, ev1, Thrown what) => (d1, ev1, Thrown what)
    | (d1, ev1, Blocked) => (d1, ev1, Blocked)
    | (d1, ev1, Fault) => (d1, ev1, Fault)
    end.

Definition get : Method Dispatcher := fun d => (d, [], Returned d).

Definition put (d' : Dispatcher) : Method unit :=
  fun _ => (d', [], Returned tt).

Definition emit (e : Event) : Method unit :=
  fun d => (d, [e], Returned tt).

(** A pure computation that may throw, run inside a method. *)
Definition lift {A : Type} (r : Outcome A) : Method A :=
  fun d => (d, [], r).

(** The body of a function that starts by taking
    [std::lock_guard<std::mutex> lock(mutex_)]: the thread waits while
    the mutex is held, and the guard gives the mutex back however the
    body ends. *)
Definition lock_guard {A : Type} (body : Method A) : Method A :=
  fun d =>
    if mutex_ d then (d, [], Blocked)
    else
      match body (mkDispatcher (operators_ d) (operatorLookupTable_ d) true) with
      | (d1, ev, r) =>
          (mkDispatcher (operators_ d1) (operatorLookupTable_ d1) false,
           MutexLock :: ev ++ [MutexUnlock], r)
      end.

End Ops.
End Method.

Notation "'do' x <- m ; k" := (Method.bind m (fun x => k))
  (at level 10, x name, m at level 100, k at level 200).

(** ** Dispatcher::dispatch_ *)

Module Dispatcher.
Section Resolution.
Context `{Collaborators} `{HashLayout KernelFunction}.

Definition dispatch_ (dispatchTable : DispatchTable)
    (dispatchKey : option TensorTypeId) : Outcome KernelFunction :=
  let backendKernel :=
    match dispatchKey with
    | Some key => DispatchTable.lookup dispatchTable key
    | None => None
    end in
  match backendKernel with
  | Some kernel => Returned kernel
  | None =>
      match DispatchTable.lookupCatchallKernel dispatchTable with
      | Some kernel => Returned kernel
      | None =>
          if match dispatchKey with
             | None => true
             | Some key => key =? UndefinedTensorId
             end
          then
            Thrown (NoTaggedArguments
                      (DispatchTable.operatorName dispatchTable)
                      (DispatchTable.listAllDispatchKeys dispatchTable))
          else
            let dispatchKeyStr :=
              match dispatchKey with
              | Some key => toString key
              | None => "None"
              end in
            Thrown (NoKernelFound
                      (DispatchTable.operatorName dispatchTable)
                      dispatchKeyStr
                      (DispatchTable.listAllDispatchKeys dispatchTable))
      end
  end.

End Resolution.

Section Calls.
Context `{Collaborators} `{HashLayout KernelFunction}.

(** [op.operatorIterator_->op]: a handle that points at no node cannot
    be followed. *)
Definition entry (h : OperatorHandle) : Method OperatorEntry :=
  fun d =>
    match stdlist.deref (operatorIterator_ h) (operators_ d) with
    | Some def => (d, [], Returned (op def))
    | None => (d, [], Fault)
    end.

(** [callUnboxed]; [local] is the thread-local state of the calling
    thread. *)
Definition callUnboxed (local : LocalTensorTypeSet) (h : OperatorHandle)
    (args : list Arg) : Method Return :=
  do e <- entry h;
  readDispatchTable e (fun dispatchTable =>
    let dispatchKey :=
      getDispatchKeyUnboxed
        (DispatchTable.dispatchKeyExtractor dispatchTable) local args in
    do kernel <- Method.lift (dispatch_ dispatchTable dispatchKey);
    Method.ret (kernel_callUnboxed kernel args)).

Definition callUnboxedOnly (local : LocalTensorTypeSet)
    (h : OperatorHandle) (args : list Arg) : Method Return :=
  do e <- entry h;
  readDispatchTable e (fun dispatchTable =>
    let dispatchKey :=
      getDispatchKeyUnboxed
        (DispatchTable.dispatchKeyExtractor dispatchTable) local args in
    do kernel <- Method.lift (dispatch_ dispatchTable dispatchKey);
    Method.ret (kernel_callUnboxedOnly kernel args)).

(** [callBoxed]: the result is the stack as the kernel leaves it. *)
Definition callBoxed (local : LocalTensorTypeSet) (h : OperatorHandle)
    (stack : Stack) : Method Stack :=
  do e <- entry h;
  readDispatchTable e (fun dispatchTable =>
    let dispatchKey :=
      getDispatchKeyBoxed
        (DispatchTable.dispatchKeyExtractor dispatchTable) local stack in
    do kernel <- Method.lift (dispatch_ dispatchTable dispatchKey);
    Method.ret (kernel_callBoxed kernel stack)).

End Calls.

Section Registration.
Context `{Collaborators} `{HashLayout KernelFunction}.

(** A dispatcher without operators, its mutex free. *)
Definition empty : Dispatcher := mkDispatcher stdlist.nil ∅ false.

(** Modelled from the spec: [findSchema] is defined outside the sources
    (Dispatcher.cpp).  The specification makes it a pure lookup in the
    name index that never mutates. *)
Definition findSchema (name : OperatorName) : Method (option OperatorHandle) :=
  do d <- Method.get;
  Method.ret (operatorLookupTable_ d !! name).

(** The message of the SchemaConflict failure. *)
Definition SchemaConflict (name : OperatorName) : string :=
  "Tried to register multiple operators with the same name and the same overload name but different schemas: " +:+
  fst name +:+ "." +:+ snd name.

(** Modelled from the spec: [findOrRegisterSchema_] is defined outside
    the sources (Dispatcher.cpp).  By the specification, when an entry
    of the same name exists its schema must equal the new one, or the
    registration fails with SchemaConflict; otherwise a new entry,
    without kernels, is put into the list of operators and the name
    index is updated.  [extractor] is the key extractor the new entry's
    table is built with. *)
Definition findOrRegisterSchema_ (extractor : DispatchKeyExtractor)
    (schema : FunctionSchema) (options : OperatorOptions)
  : Method OperatorHandle :=
  do found <- findSchema (operator_name schema);
  match found with
  | Some h =>
      do e <- entry h;
      if decide (schema_ e = schema) then Method.ret h
      else Method.lift (Thrown (SchemaConflict (operator_name schema)))
  | None =>
      do d <- Method.get;
      let emplaced :=
        stdlist.emplace_back (new_OperatorDef extractor schema options)
          (operators_ d) in
      let handle := mkOperatorHandle (snd emplaced) in
      do _ <- Method.put
                (mkDispatcher (fst emplaced)
                   (<[operator_name schema := handle]> (operatorLookupTable_ d))
                   (mutex_ d));
      Method.ret handle
  end.

(** [++op.operatorIterator_->refcount], giving the new count. *)
Definition increment_refcount (h : OperatorHandle) : Method nat :=
  fun d =>
    match stdlist.deref (operatorIterator_ h) (operators_ d) with
    | Some def =>
        (mkDispatcher
           (stdlist.update (operatorIterator_ h) bump_refcount (operators_ d))
           (operatorLookupTable_ d) (mutex_ d),
         [], Returned (S (refcount def)))
    | None => (d, [], Fault)
    end.

(** Modelled from the spec: [registerSchema] is defined outside the
    sources (Dispatcher.cpp).  By the specification, registrations are
    serialized under the mutex; the entry is found or created, its
    reference count goes up by one, the listeners hear of the operator
    once per distinct name, and the caller gets the handle together
    with the token whose release deregisters this contribution. *)
Definition registerSchema (extractor : DispatchKeyExtractor)
    (schema : FunctionSchema) (options : OperatorOptions)
  : Method SchemaRegistrationHandleRAII :=
  Method.lock_guard (
    do h <- findOrRegisterSchema_ extractor schema options;
    do count <- increment_refcount h;
    do _ <- (if (count =? 1)%nat then Method.emit (OnOperatorRegistered h)
             else Method.ret tt);
    Method.ret (mkSchemaRegistrationHandleRAII h (h, operator_name schema))).

(** The dispatcher after a series of schema registrations, whatever the
    outcome of each. *)
Definition after_registrations (extractor : DispatchKeyExtractor)
    (regs : list (FunctionSchema * OperatorOptions)) (d : Dispatcher)
  : Dispatcher :=
  fold_left
    (fun d reg => fst (fst (registerSchema extractor (fst reg) (snd reg) d)))
    regs d.

End Registration.
End Dispatcher.

(** ** The table invariant, and the key the specification extracts *)

Section Invariants.
Context `{Collaborators} `{HashLayout KernelFunction}.

(** No tag has two entries. *)
Definition unique_keys (tbl : KernelTable_) : Prop :=
  NoDup (flat_hash_map.keys (map_ tbl)).

(** The tables that registrations and removals build. *)
Inductive reachable : KernelTable_ -> Prop :=
| reachable_empty : reachable KernelTable_.empty
| reachable_set key value operator_name tbl :
    reachable tbl ->
    reachable (fst (KernelTable_.set key value operator_name tbl))
| reachable_removeIfExists key operator_name tbl :
    reachable tbl ->
    reachable (fst (KernelTable_.removeIfExists key operator_name tbl)).

(** The tags a table has a kernel for. *)
Definition registered (tbl : KernelTable_) (key : TensorTypeId) : bool :=
  match KernelTable_.lookup key tbl with Some _ => true | None => false end.

(** Modelled from the spec: the key extraction of a typed call
    (DispatchKeyExtractor.h is not among the sources).  The specification
    collects the tags of the arguments, combines them with the
    thread-local sets, and extracts the highest-priority tag, or
    "undefined" if none is left. *)
Definition extractKeyUnboxed (local : LocalTensorTypeSet) (args : list Arg)
  : option TensorTypeId :=
  Some (dispatchTypeId local (multi_dispatch_tensor_type_set args)).

(** The invariant of the registry: every node was allocated by the list,
    and the name index sends a name to a live node that holds a schema of
    that name. *)
Definition registry_ok (d : Dispatcher) : Prop :=
  stdlist.allocated (operators_ d) /\
  forall name h, operatorLookupTable_ d !! name = Some h ->
    exists def, stdlist.deref (operatorIterator_ h) (operators_ d) = Some def /\
                operator_name (schema_ (op def)) = name.

(** The kernel the table has for the key of the call, if the call has a
    key. *)
Definition backend_kernel (table : DispatchTable)
    (dispatchKey : option TensorTypeId) : option KernelFunction :=
  match dispatchKey with
  | Some key => DispatchTable.lookup table key
  | None => None
  end.

(** A method that, run on [d], leaves the dispatcher as it was, raises no
    event (so it does not take the mutex) and does not wait. *)
Definition untouched {A : Type} (m : Method A) (d : Dispatcher) : Prop :=
  fst (fst (m d)) = d /\ snd (fst (m d)) = [] /\ snd (m d) <> Blocked.

(** What a call does with the kernel it resolved. *)
Definition invoke {A B : Type} (f : A -> B) (r : Outcome A) : Outcome B :=
  match r with
  | Returned a => Returned (f a)
  | Thrown what => Thrown what
  | Blocked => Blocked
  | Fault => Fault
  end.

End Invariants.

(** ** A concrete setting to run the definitions in *)

Module Sample.

(** Tensors and options are given by their type sets, the stack holds
    tensors, results are numbers, ids print as decimal numbers, and a
    schema is a name with a signature. *)
Definition collaborators : Collaborators := {|
  Tensor := TensorTypeSet;
  TensorOptions := TensorTypeSet;
  Other := N;
  Stack := list TensorTypeSet;
  Return := N;
  tensor_type_set := fun x => x;
  options_type_set := fun x => x;
  toString := fun t => NilEmpty.string_of_uint (N.to_uint t);
  FunctionSchema := (string * string) * string;
  OperatorOptions := unit;
  operator_name := fst;
  schema_eq_dec := _
|}.

(** A hash map that walks its entries from the newest to the oldest. *)
Definition newest_first : @HashLayout (@KernelFunction collaborators) := {|
  layout := fun l => l;
  layout_perm := fun l => Permutation_refl l
|}.

(** A kernel that answers [n] and pushes a tensor of type set [n]. *)
Definition kernel (n : N) : @KernelFunction collaborators :=
  @mkKernelFunction collaborators
    (fun stack : list TensorTypeSet => mkTensorTypeSet n :: stack)
    (fun _ => n) (fun _ => n).

(** Modelled from the spec: an extractor that follows the specification on
    both conventions (DispatchKeyExtractor.h is not among the sources).
    The tags of the arguments, or of the tensors on the stack, are
    collected, combined with the thread-local sets, and reduced to the
    highest-priority tag, or the undefined id. *)
Definition extractor : @DispatchKeyExtractor collaborators :=
  @mkDispatchKeyExtractor collaborators
    (@extractKeyUnboxed collaborators)
    (fun local (stack : list TensorTypeSet) =>
       Some (dispatchTypeId local
               (fold_left TensorTypeSet.union stack TensorTypeSet.empty_set))).

Definition no_override : LocalTensorTypeSet :=
  mkLocalTensorTypeSet TensorTypeSet.empty_set TensorTypeSet.empty_set.

(** A table built by registering the kernels of [regs] in order. *)
Definition table_of (regs : list (TensorTypeId * N)) : @KernelTable_ collaborators :=
  fold_left
    (fun tbl reg =>
       fst (@KernelTable_.set collaborators newest_first
              (fst reg) (kernel (snd reg)) "aten::op" tbl))
    regs (@KernelTable_.empty collaborators).

Definition dispatch_table (regs : list (TensorTypeId * N))
    (catchall : option N) : @DispatchTable collaborators :=
  @mkDispatchTable collaborators (table_of regs) (kernel <$> catchall)
    extractor "aten::op".

Definition schema (name : string) : @FunctionSchema collaborators :=
  ((name, EmptyString), "(Tensor self) -> Tensor")%string.

(** The arguments of a call with a tensor of tag 2 and a tensor of tag 1,
    and the stack with the same two tensors. *)
Definition two_tags : list (@Arg collaborators) :=
  [@ArgTensor collaborators (TensorTypeSet.of_id 2);
   @ArgTensor collaborators (TensorTypeSet.of_id 1)].

Definition two_tags_stack : @Stack collaborators :=
  [TensorTypeSet.of_id 2; TensorTypeSet.of_id 1].

(** A dispatcher with the one operator [aten::op], at node 0, whose table
    is [dispatch_table regs catchall], and the handle to it. *)
Definition handle : @OperatorHandle := mkOperatorHandle 0.

Definition registry (regs : list (TensorTypeId * N)) (catchall : option N)
  : @Dispatcher collaborators :=
  @mkDispatcher collaborators
    (mkStdlist
       {[ 0%nat :=
            @mkOperatorDef collaborators
              (@mkOperatorEntry collaborators (schema "aten::op") tt
                 (dispatch_table regs catchall)) 1 ]}
       [0%nat] 1)
    {[ ("aten::op", EmptyString)%string := handle ]}
    false.

(** The same dispatcher while another thread holds the mutex. *)
Definition busy_registry (regs : list (TensorTypeId * N)) (catchall : option N)
  : @Dispatcher collaborators :=
  @mkDispatcher collaborators
    (operators_ (registry regs catchall))
    (operatorLookupTable_ (registry regs catchall))
    true.

(** The dispatcher after the operator [a] was registered with an empty one,
    and the token of that registration. *)
Definition registered_a :=
  @Dispatcher.registerSchema collaborators extractor (schema "a") tt
    (@Dispatcher.empty collaborators).

End Sample.

(** ** What one argument contributes, and further sample values *)

Section ArgumentTags.
Context `{Collaborators}.

(** Whether the argument [a] carries the tag [t]: a tensor and tensor
    options carry the tags of their type set, a list of tensors those of
    its elements, and any other argument none. *)
Definition carries (a : Arg) (t : TensorTypeId) : bool :=
  match a with
  | ArgTensor x => TensorTypeSet.has (tensor_type_set x) t
  | ArgTensorOptions x => TensorTypeSet.has (options_type_set x) t
  | ArgTensorList xs =>
      existsb (fun x => TensorTypeSet.has (tensor_type_set x) t) xs
  | ArgOther _ => false
  end.

(** A thread without included and excluded tags. *)
Definition no_local : LocalTensorTypeSet :=
  mkLocalTensorTypeSet TensorTypeSet.empty_set TensorTypeSet.empty_set.

(** The thread-local sets after one more tag was excluded. *)
Definition exclude (t : TensorTypeId) (local : LocalTensorTypeSet)
  : LocalTensorTypeSet :=
  mkLocalTensorTypeSet (included_ local)
    (TensorTypeSet.union (excluded_ local) (TensorTypeSet.of_id t)).

(** A dispatch table with other kernels and the rest as it was. *)
Definition with_kernels (kernels : KernelTable_) (table : DispatchTable)
  : DispatchTable :=
  mkDispatchTable kernels (catchallKernel_ table)
    (dispatchKeyExtractor_ table) (operatorName_ table).

End ArgumentTags.

Module MoreSamples.

(** The arguments of a call with an empty list of tensors and a number. *)
Definition no_tensors : list (@Arg Sample.collaborators) :=
  [@ArgTensorList Sample.collaborators [];
   @ArgOther Sample.collaborators 5].

(** The arguments of a call with a list of the tensors of tags 1 and 3, a
    number, and tensor options of tag 2. *)
Definition mixed : list (@Arg Sample.collaborators) :=
  [@ArgTensorList Sample.collaborators
     [TensorTypeSet.of_id 1; TensorTypeSet.of_id 3];
   @ArgOther Sample.collaborators 7;
   @ArgTensorOptions Sample.collaborators (TensorTypeSet.of_id 2)].



End MoreSamples.

(** * Properties *)

(** ** Tensor type sets *)

Module TensorTypeSetFacts.
Import TensorTypeSet.

Lemma has_union a b t : has (union a b) t = has a t || has b t.
Proof.
  unfold has, union; simpl. rewrite N.lor_spec.
  destruct (t =? UndefinedTensorId); reflexivity.
Qed.

Lemma has_minus a b t : has (minus a b) t = has a t && negb (has b t).
Proof.
  unfold has, minus; simpl. rewrite N.ldiff_spec.
  destruct (t =? UndefinedTensorId); simpl; [reflexivity|].
  reflexivity.
Qed.

Lemma has_empty_set t : has empty_set t = false.
Proof.
  unfold has, empty_set. cbn [repr_]. rewrite N.bits_0. apply andb_false_r.
Qed.

Lemma has_undefined s : has s UndefinedTensorId = false.
Proof. reflexivity. Qed.

Lemma has_of_id t u : has (of_id t) u = negb (u =? UndefinedTensorId) && (t =? u).
Proof.
  unfold has, of_id, UndefinedTensorId.
  destruct (N.eqb_spec t 0) as [->|Ht].
  - cbn [repr_ empty_set]. rewrite N.bits_0.
    destruct (N.eqb_spec u 0) as [->|Hu]; cbn [negb andb]; [reflexivity|].
    symmetry. apply N.eqb_neq. lia.
  - cbn [repr_]. destruct (N.eqb_spec u 0) as [->|Hu]; cbn [negb andb]; [reflexivity|].
    rewrite N.shiftl_1_l, N.pow2_bits_eqb.
    destruct (N.eqb_spec (t - 1) (u - 1)), (N.eqb_spec t u); try reflexivity; lia.
Qed.

(** A set with a member has a non-zero word. *)
Lemma has_nonzero s t : has s t = true -> repr_ s <> 0.
Proof.
  unfold has. intros Hm Hz. rewrite Hz, N.bits_0, andb_false_r in Hm.
  discriminate.
Qed.

(** The highest-priority id of a non-empty set is a member of it. *)
Lemma highest_is_member s :
  repr_ s <> 0 -> has s (highestPriorityTypeId s) = true.
Proof.
  intros Hnz. unfold has, highestPriorityTypeId.
  rewrite (N.size_log2 _ Hnz).
  replace (N.succ (N.log2 (repr_ s)) - 1) with (N.log2 (repr_ s)) by lia.
  rewrite (N.bit_log2 _ Hnz).
  unfold UndefinedTensorId.
  destruct (N.eqb_spec (N.succ (N.log2 (repr_ s))) 0); [lia | reflexivity].
Qed.

(** No member has a higher priority. *)
Lemma member_le_highest s t :
  has s t = true -> t <= highestPriorityTypeId s.
Proof.
  intros Hm. pose proof (has_nonzero _ _ Hm) as Hnz.
  unfold has in Hm. apply andb_prop in Hm as [Ht Hbit].
  unfold highestPriorityTypeId. rewrite (N.size_log2 _ Hnz).
  destruct (N.le_gt_cases t (N.succ (N.log2 (repr_ s)))) as [Hle|Hgt];
    [exact Hle|].
  rewrite N.bits_above_log2 in Hbit by lia. discriminate.
Qed.

(** A set without members is the empty word, whose highest-priority id is
    the undefined one. *)
Lemma no_member_undefined s :
  (forall t, has s t = false) -> highestPriorityTypeId s = UndefinedTensorId.
Proof.
  intros Hnone. destruct (N.eq_dec (repr_ s) 0) as [Hz|Hnz].
  - unfold highestPriorityTypeId. rewrite Hz. reflexivity.
  - pose proof (highest_is_member s Hnz) as Hm. rewrite Hnone in Hm.
    discriminate.
Qed.

Lemma empty_no_member s : empty s = true <-> forall t, has s t = false.
Proof.
  unfold empty. split.
  - intros Hz%N.eqb_eq t. unfold has. rewrite Hz, N.bits_0. apply andb_false_r.
  - intros Hnone. apply N.eqb_eq.
    destruct (N.eq_dec (repr_ s) 0) as [Hz|Hnz]; [exact Hz|].
    pose proof (highest_is_member s Hnz) as Hm. rewrite Hnone in Hm.
    discriminate.
Qed.

(** Union and difference stay within the 64-bit word. *)
Lemma fits_union a b : fits a -> fits b -> fits (union a b).
Proof.
  unfold fits, union; simpl. intros Ha Hb.
  destruct (N.eq_dec (N.lor (repr_ a) (repr_ b)) 0) as [->|Hnz]; [lia|].
  apply N.log2_lt_pow2; [lia|].
  rewrite N.log2_lor.
  destruct (N.eq_dec (repr_ a) 0) as [Ha0|Ha0], (N.eq_dec (repr_ b) 0) as [Hb0|Hb0].
  - exfalso. apply Hnz. rewrite Ha0, Hb0. reflexivity.
  - rewrite Ha0. cbn [N.log2]. apply N.max_lub_lt; [lia|]. apply N.log2_lt_pow2; lia.
  - rewrite Hb0. cbn [N.log2]. apply N.max_lub_lt; [|lia]. apply N.log2_lt_pow2; lia.
  - apply N.max_lub_lt; apply N.log2_lt_pow2; lia.
Qed.

Lemma fits_minus a b : fits a -> fits (minus a b).
Proof.
  unfold fits, minus; simpl. intros Ha.
  eapply N.le_lt_trans; [|exact Ha].
  apply N.ldiff_le_l.
Qed.

(** On 64-bit words the difference is [repr_ & ~other.repr_]. *)
Lemma minus_and_not a b :
  fits a -> repr_ (minus a b) = N.land (repr_ a) (N.lnot (repr_ b) 64).
Proof.
  unfold fits, minus; cbn [repr_]. intros Ha.
  destruct (N.eq_dec (repr_ a) 0) as [Hz|Hnz].
  - rewrite Hz. rewrite N.ldiff_0_l, N.land_0_l. reflexivity.
  - apply N.ldiff_land_low. apply N.log2_lt_pow2; lia.
Qed.

End TensorTypeSetFacts.

(** ** The dispatch key *)

Section DispatchKey.
Import TensorTypeSet TensorTypeSetFacts.

(** Membership in the set the key is taken from. *)
Lemma has_effective local ts t :
  has (minus (union ts (included_ local)) (excluded_ local)) t
  = (has ts t || has (included_ local) t) && negb (has (excluded_ local) t).
Proof. rewrite has_minus, has_union. reflexivity. Qed.

(** C3: the key [dispatchTypeId] extracts is the highest-priority member of
    (ts ∪ included) − excluded, and the undefined id when that set has no
    member; it is a function of ts and of the two thread-local sets, and
    of nothing else. *)
Theorem dispatchTypeId_highest_priority
    (local : LocalTensorTypeSet) (ts : TensorTypeSet) :
  let effective := minus (union ts (included_ local)) (excluded_ local) in
  let key := dispatchTypeId local ts in
  (forall t, has effective t
             = (has ts t || has (included_ local) t)
               && negb (has (excluded_ local) t))
  /\ ((forall t, has effective t = false) -> key = UndefinedTensorId)
  /\ (forall t, has effective t = true ->
                has effective key = true /\ t <= key)
  /\ (forall local', included_ local' = included_ local ->
                     excluded_ local' = excluded_ local ->
                     dispatchTypeId local' ts = key).
Proof.
  cbv zeta. split; [|split; [|split]].
  - intros t. apply has_effective.
  - intros Hnone. unfold dispatchTypeId. apply no_member_undefined, Hnone.
  - intros t Hm. unfold dispatchTypeId. split.
    + apply highest_is_member. eapply has_nonzero, Hm.
    + apply member_le_highest, Hm.
  - intros local' Hi He. unfold dispatchTypeId. rewrite Hi, He. reflexivity.
Qed.

(** When no thread-local override hides the tag [A] or adds one above it,
    a set whose highest member is [A] has [A] as its key. *)
Lemma dispatchTypeId_top local ts A :
  has ts A = true ->
  (forall t, has ts t = true -> t <= A) ->
  has (excluded_ local) A = false ->
  (forall t, has (included_ local) t = true ->
             has (excluded_ local) t = false -> t <= A) ->
  dispatchTypeId local ts = A.
Proof.
  intros HA Hmax Hex Hinc.
  set (effective := minus (union ts (included_ local)) (excluded_ local)).
  assert (HAe : has effective A = true).
  { unfold effective. rewrite has_effective, HA, Hex. reflexivity. }
  assert (Hk : has effective (dispatchTypeId local ts) = true).
  { apply highest_is_member. eapply has_nonzero, HAe. }
  apply N.le_antisymm; [|apply member_le_highest, HAe].
  unfold effective in Hk. rewrite has_effective in Hk.
  apply andb_prop in Hk as [Hin Hout].
  apply negb_true_iff in Hout.
  apply orb_prop in Hin as [Hin|Hin]; [apply Hmax, Hin | apply Hinc; assumption].
Qed.

End DispatchKey.

(** ** The hash map *)

Section FlatHashMapFacts.
Context {V : Type} `{HashLayout V}.
Import flat_hash_map.

Implicit Types (m : list (TensorTypeId * V)) (key : TensorTypeId) (v : V).

Lemma find_In key m v : find key m = Some v -> In (key, v) m.
Proof.
  induction m as [|[k w] m IH]; cbn [find]; [discriminate|].
  destruct (N.eqb_spec k key) as [->|Hne].
  - intros [= ->]. left. reflexivity.
  - intros Hf. right. apply IH, Hf.
Qed.

Lemma find_None key m : find key m = None <-> ~ In key (keys m).
Proof.
  unfold keys. induction m as [|[k w] m IH]; cbn [find map fst In].
  - tauto.
  - destruct (N.eqb_spec k key) as [->|Hne].
    + split; [discriminate | intros Hn; exfalso; apply Hn; left; reflexivity].
    + rewrite IH. tauto.
Qed.

Lemma find_is_Some key m : is_Some (find key m) <-> In key (keys m).
Proof.
  destruct (find key m) as [v|] eqn:Hf.
  - split; [intros _ | eauto].
    apply find_In in Hf. unfold keys. apply (in_map fst) in Hf. exact Hf.
  - apply find_None in Hf. split; [intros [v Hv]; discriminate | tauto].
Qed.

(** An entry whose key occurs only with the value [v] is what [find]
    returns, wherever the entry sits. *)
Lemma find_unique key m v :
  In (key, v) m -> (forall w, In (key, w) m -> w = v) -> find key m = Some v.
Proof.
  intros Hin Hall. destruct (find key m) as [w|] eqn:Hf.
  - apply find_In, Hall in Hf. congruence.
  - apply find_None in Hf. exfalso. apply Hf.
    apply (in_map fst) in Hin. exact Hin.
Qed.

Lemma NoDup_keys_unique key m v w :
  NoDup (keys m) -> In (key, v) m -> In (key, w) m -> w = v.
Proof.
  unfold keys. induction m as [|[k u] m IH]; cbn [map fst]; [intros _ []|].
  intros Hnd Hv Hw. apply NoDup_cons in Hnd as [Hk Hnd].
  rewrite list_elem_of_In in Hk.
  destruct Hv as [[= -> ->]|Hv], Hw as [[= ->]|Hw].
  - reflexivity.
  - exfalso. apply Hk. apply (in_map fst) in Hw. exact Hw.
  - exfalso. subst. apply Hk. apply (in_map fst) in Hv. exact Hv.
  - apply IH; assumption.
Qed.

(** With unique keys, what [find] returns does not depend on the order
    of the entries. *)
Lemma find_Permutation key m m' :
  NoDup (keys m) -> Permutation m m' -> find key m' = find key m.
Proof.
  intros Hnd Hp. destruct (find key m) as [v|] eqn:Hf.
  - apply find_unique.
    + eapply Permutation_in; [exact Hp|]. apply find_In, Hf.
    + intros w Hw. apply find_In in Hf.
      eapply NoDup_keys_unique; [exact Hnd| exact Hf |].
      eapply Permutation_in; [symmetry; exact Hp | exact Hw].
  - apply find_None. apply find_None in Hf. intros Hin. apply Hf.
    eapply Permutation_in; [|exact Hin].
    apply Permutation_map. symmetry. exact Hp.
Qed.

Lemma keys_assign key v m : keys (assign key v m) = keys m.
Proof.
  unfold keys, assign. rewrite map_map. apply map_ext.
  intros [k w]. cbn [fst]. destruct (k =? key); reflexivity.
Qed.

Lemma In_assign key v m k w :
  In (k, w) (assign key v m) ->
  (k = key /\ w = v) \/ (k <> key /\ In (k, w) m).
Proof.
  unfold assign. rewrite in_map_iff. intros [[k' w'] [Heq Hin]].
  cbn [fst] in Heq. destruct (N.eqb_spec k' key) as [->|Hne].
  - injection Heq as <- <-. left. split; reflexivity.
  - injection Heq as <- <-. right. split; assumption.
Qed.

Lemma find_assign_same key v m :
  is_Some (find key m) -> find key (assign key v m) = Some v.
Proof.
  intros Hs. apply find_unique.
  - apply find_is_Some in Hs. unfold keys in Hs.
    apply in_map_iff in Hs as [[k w] [Hk Hin]]. cbn [fst] in Hk. subst k.
    unfold assign. apply in_map_iff. exists (key, w).
    cbn [fst]. rewrite N.eqb_refl. split; [reflexivity | exact Hin].
  - intros w Hw. apply In_assign in Hw as [[_ ->]|[Hne _]];
      [reflexivity | congruence].
Qed.

Lemma find_assign_other key v m k :
  k <> key -> find k (assign key v m) = find k m.
Proof.
  intros Hne. unfold assign.
  induction m as [|[k' w] m IH]; cbn [map find fst]; [reflexivity|].
  destruct (N.eqb_spec k' key) as [->|Hk'].
  - destruct (N.eqb_spec key k) as [->|_]; [congruence | exact IH].
  - destruct (N.eqb_spec k' k); [reflexivity | exact IH].
Qed.

(** What [emplace] gives for a key that is present, and for one that is
    absent. *)
Lemma emplace_present key v m :
  is_Some (find key m) -> emplace key v m = (m, false).
Proof. intros [w Hw]. unfold emplace. rewrite Hw. reflexivity. Qed.

Lemma emplace_absent key v m :
  find key m = None -> emplace key v m = (layout ((key, v) :: m), true).
Proof. intros Hf. unfold emplace. rewrite Hf. reflexivity. Qed.

Lemma find_layout_new key v m :
  find key m = None -> find key (layout ((key, v) :: m)) = Some v.
Proof.
  intros Hf. apply find_unique.
  - eapply Permutation_in; [symmetry; apply layout_perm | left; reflexivity].
  - intros w Hw.
    eapply Permutation_in in Hw; [|apply layout_perm].
    destruct Hw as [[= ->]|Hw]; [reflexivity|].
    apply find_None in Hf. exfalso. apply Hf.
    apply (in_map fst) in Hw. exact Hw.
Qed.

Lemma NoDup_keys_layout_new key v m :
  find key m = None -> NoDup (keys m) ->
  NoDup (keys (layout ((key, v) :: m))).
Proof.
  intros Hf Hnd. unfold keys.
  pose proof (Permutation_map fst (layout_perm ((key, v) :: m))) as Hp.
  apply (NoDup_Permutation_proper _ _ Hp).
  cbn [map fst]. apply NoDup_cons. split; [|exact Hnd].
  rewrite list_elem_of_In. apply find_None, Hf.
Qed.

Lemma find_layout_other key v m k :
  k <> key -> find key m = None -> NoDup (keys m) ->
  find k (layout ((key, v) :: m)) = find k m.
Proof.
  intros Hne Hf Hnd.
  rewrite (find_Permutation k ((key, v) :: m) (layout ((key, v) :: m))).
  - cbn [find]. destruct (N.eqb_spec key k); [congruence | reflexivity].
  - unfold keys. cbn [map fst]. apply NoDup_cons. split; [|exact Hnd].
    rewrite list_elem_of_In. apply find_None, Hf.
  - symmetry. apply layout_perm.
Qed.

(** With unique keys, [erase] removes at most one entry. *)
Lemma erase_at_most_one key m :
  NoDup (keys m) -> (snd (erase key m) <= 1)%nat.
Proof.
  unfold erase, keys. cbn [snd].
  induction m as [|[k w] m IH]; cbn [map fst List.filter length]; [lia|].
  intros Hnd. apply NoDup_cons in Hnd as [Hk Hnd].
  rewrite list_elem_of_In in Hk. specialize (IH Hnd).
  pose proof (filter_length_le (fun kv => negb (fst kv =? key)) m) as Hle.
  destruct (N.eqb_spec k key) as [->|Hne]; cbn [negb length].
  - assert (Hsame : List.filter (fun kv => negb (fst kv =? key)) m = m).
    { apply forallb_filter_id. apply forallb_forall. intros [k' w'] Hin.
      cbn [fst]. apply negb_true_iff, N.eqb_neq. intros ->.
      apply Hk. apply (in_map fst) in Hin. exact Hin. }
    rewrite Hsame. unfold TensorTypeId in *. lia.
  - unfold TensorTypeId in *. lia.
Qed.

Lemma find_erase_same key m : find key (fst (erase key m)) = None.
Proof.
  unfold erase. cbn [fst].
  induction m as [|[k w] m IH]; cbn [List.filter fst find]; [reflexivity|].
  destruct (N.eqb_spec k key) as [->|Hne]; cbn [negb find]; [exact IH|].
  destruct (N.eqb_spec k key); [congruence | exact IH].
Qed.

Lemma NoDup_keys_erase key m :
  NoDup (keys m) -> NoDup (keys (fst (erase key m))).
Proof.
  unfold erase, keys. cbn [fst].
  induction m as [|[k w] m IH]; cbn [map fst List.filter]; [intros; constructor|].
  intros Hnd. apply NoDup_cons in Hnd as [Hk Hnd].
  rewrite list_elem_of_In in Hk.
  destruct (negb (k =? key)); [|apply IH, Hnd].
  cbn [map fst]. apply NoDup_cons. split; [|apply IH, Hnd].
  rewrite list_elem_of_In. intros Hin. apply Hk.
  apply in_map_iff in Hin as [[k' w'] [Hk' Hin]].
  apply filter_In in Hin as [Hin _].
  apply in_map_iff. exists (k', w'). split; assumption.
Qed.

End FlatHashMapFacts.

(** ** Strings *)

Section StringFacts.

Lemma append_cons a s t : String a s +:+ t = String a (s +:+ t).
Proof. reflexivity. Qed.

Lemma append_assoc (s t u : string) : (s +:+ t) +:+ u = s +:+ t +:+ u.
Proof.
  induction s as [|a s IH]; [reflexivity|].
  rewrite !append_cons, IH. reflexivity.
Qed.

Lemma concat_cons_cons sep x y l :
  String.concat sep (x :: y :: l) = x +:+ sep +:+ String.concat sep (y :: l).
Proof. reflexivity. Qed.

(** A prefix of the first piece is a prefix of the whole. *)
Lemma concat_prefix sep p x l :
  String.concat sep ((p +:+ x) :: l) = p +:+ String.concat sep (x :: l).
Proof.
  destruct l as [|y l]; [reflexivity|].
  rewrite !concat_cons_cons. apply append_assoc.
Qed.

(** Appending a separator and a piece to the first piece is the same as
    putting that piece second. *)
Lemma concat_merge sep x y l :
  String.concat sep ((x +:+ sep +:+ y) :: l) = String.concat sep (x :: y :: l).
Proof.
  rewrite concat_cons_cons, (concat_prefix sep x (sep +:+ y) l).
  rewrite (concat_prefix sep sep y l). reflexivity.
Qed.

End StringFacts.

(** ** The kernel table *)

Section KernelTableFacts.
Context `{Collaborators} `{HashLayout KernelFunction}.
Import flat_hash_map.

Implicit Types (tbl : KernelTable_) (key : TensorTypeId)
  (kernel : KernelFunction) (name : string).

Lemma set_present key kernel name tbl :
  is_Some (KernelTable_.lookup key tbl) ->
  KernelTable_.set key kernel name tbl
  = (mkKernelTable (assign key kernel (map_ tbl)),
     [KernelTable_.overwrite_warning name key]).
Proof.
  intros Hs. unfold KernelTable_.set.
  rewrite (emplace_present key kernel (map_ tbl) Hs). reflexivity.
Qed.

Lemma set_absent key kernel name tbl :
  KernelTable_.lookup key tbl = None ->
  KernelTable_.set key kernel name tbl
  = (mkKernelTable (layout ((key, kernel) :: map_ tbl)), []).
Proof.
  intros Hn. unfold KernelTable_.set.
  rewrite (emplace_absent key kernel (map_ tbl) Hn). reflexivity.
Qed.

(** After [set], the key is looked up to the kernel that was set. *)
Lemma lookup_set_same key kernel name tbl :
  KernelTable_.lookup key (fst (KernelTable_.set key kernel name tbl))
  = Some kernel.
Proof.
  destruct (KernelTable_.lookup key tbl) as [old|] eqn:Hl.
  - rewrite set_present by (rewrite Hl; eauto).
    apply find_assign_same. unfold KernelTable_.lookup in Hl.
    rewrite Hl. eauto.
  - rewrite set_absent by exact Hl. apply find_layout_new, Hl.
Qed.

Lemma set_unique_keys key kernel name tbl :
  unique_keys tbl ->
  unique_keys (fst (KernelTable_.set key kernel name tbl)).
Proof.
  unfold unique_keys. intros Hnd.
  destruct (KernelTable_.lookup key tbl) as [old|] eqn:Hl.
  - rewrite set_present by (rewrite Hl; eauto).
    cbn [fst map_]. rewrite keys_assign. exact Hnd.
  - rewrite set_absent by exact Hl. cbn [fst map_].
    apply NoDup_keys_layout_new; assumption.
Qed.

(** With unique keys, [set] leaves the other keys as they were. *)
Lemma lookup_set_other key kernel name tbl k :
  unique_keys tbl -> k <> key ->
  KernelTable_.lookup k (fst (KernelTable_.set key kernel name tbl))
  = KernelTable_.lookup k tbl.
Proof.
  intros Hnd Hne.
  destruct (KernelTable_.lookup key tbl) as [old|] eqn:Hl.
  - rewrite set_present by (rewrite Hl; eauto).
    apply find_assign_other, Hne.
  - rewrite set_absent by exact Hl.
    apply find_layout_other; assumption.
Qed.

Lemma removeIfExists_unique_keys key name tbl :
  unique_keys tbl ->
  unique_keys (fst (KernelTable_.removeIfExists key name tbl)).
Proof. unfold unique_keys. cbn [KernelTable_.removeIfExists fst map_]. apply NoDup_keys_erase. Qed.

(** The internal assertion of [removeIfExists] holds on a table with
    unique keys, and the key is gone afterwards. *)
Lemma removeIfExists_ok key name tbl :
  unique_keys tbl ->
  snd (KernelTable_.removeIfExists key name tbl) = true
  /\ KernelTable_.lookup key
       (fst (KernelTable_.removeIfExists key name tbl)) = None.
Proof.
  intros Hnd. unfold KernelTable_.removeIfExists. cbn [fst snd]. split.
  - apply Nat.leb_le. apply erase_at_most_one, Hnd.
  - apply find_erase_same.
Qed.

(** Every table that registrations and removals build has unique keys. *)
Lemma reachable_unique_keys tbl : reachable tbl -> unique_keys tbl.
Proof.
  induction 1 as [|key kernel name tbl _ IH|key name tbl _ IH].
  - constructor.
  - apply set_unique_keys, IH.
  - apply removeIfExists_unique_keys, IH.
Qed.

Lemma registered_keys tbl key :
  In key (keys (map_ tbl)) <-> registered tbl key = true.
Proof.
  unfold registered, KernelTable_.lookup. rewrite <- find_is_Some.
  destruct (find key (map_ tbl)); split; eauto; try discriminate.
  intros [? [=]].
Qed.

(** The loop of [list_all_dispatch_keys], as a join of the pieces. *)
Lemma listing_loop (rest : list (TensorTypeId * KernelFunction)) (acc : string) :
  fold_left (fun str kv => str +:+ ", " +:+ toString (fst kv)) rest acc
  = String.concat ", " (acc :: map toString (keys rest)).
Proof.
  revert acc. induction rest as [|[k w] rest IH]; intros acc; [reflexivity|].
  cbn [fold_left fst]. rewrite IH. unfold keys. cbn [map fst].
  apply concat_merge.
Qed.

Lemma listing_join tbl :
  KernelTable_.list_all_dispatch_keys tbl
  = "[" +:+ String.concat ", " (map toString (keys (map_ tbl))) +:+ "]".
Proof.
  unfold KernelTable_.list_all_dispatch_keys.
  destruct (map_ tbl) as [|[k w] rest]; [reflexivity|].
  cbn [fst]. rewrite listing_loop, concat_prefix.
  unfold keys. cbn [map fst]. apply append_assoc.
Qed.

(** C5: after set(tag, kernel1) and then set(tag, kernel2), the tag is
    looked up to kernel2 and every entry of the tag holds kernel2; the
    second registration raises the overwrite warning and nothing else;
    on a table with unique keys the keys stay unique and the other tags
    keep their kernels. *)
Theorem set_twice_last_wins tbl key (kernel1 kernel2 : KernelFunction) name :
  let first := KernelTable_.set key kernel1 name tbl in
  let second := KernelTable_.set key kernel2 name (fst first) in
  KernelTable_.lookup key (fst second) = Some kernel2
  /\ (forall kernel, In (key, kernel) (map_ (fst second)) -> kernel = kernel2)
  /\ snd second = [KernelTable_.overwrite_warning name key]
  /\ (unique_keys tbl ->
      unique_keys (fst second)
      /\ forall k, k <> key ->
           KernelTable_.lookup k (fst second) = KernelTable_.lookup k tbl).
Proof.
  cbv zeta.
  assert (Hfirst : is_Some (KernelTable_.lookup key
                     (fst (KernelTable_.set key kernel1 name tbl)))).
  { rewrite lookup_set_same. eauto. }
  split; [apply lookup_set_same|]. split; [|split].
  - rewrite (set_present _ _ _ _ Hfirst). cbn [fst map_].
    intros kernel Hin. apply In_assign in Hin as [[_ ->]|[Hne _]];
      [reflexivity | congruence].
  - rewrite (set_present _ _ _ _ Hfirst). reflexivity.
  - intros Hnd. split.
    + apply set_unique_keys, set_unique_keys, Hnd.
    + intros k Hne. rewrite lookup_set_other.
      * apply lookup_set_other; assumption.
      * apply set_unique_keys, Hnd.
      * exact Hne.
Qed.

(** X21: the listing of [list_all_dispatch_keys] is an opening bracket,
    the printed keys of the table in the order in which the hash map
    iterates over them, separated by a comma and a blank, and a closing
    bracket; the keys listed are exactly those [lookup] finds a kernel
    for; and on every table that registrations and removals build no key
    is listed twice. *)
Theorem list_all_dispatch_keys_iteration_order tbl :
  KernelTable_.list_all_dispatch_keys tbl
  = "[" +:+ String.concat ", " (map toString (keys (map_ tbl))) +:+ "]"
  /\ (forall key, In key (keys (map_ tbl)) <-> registered tbl key = true)
  /\ (reachable tbl -> NoDup (keys (map_ tbl))).
Proof.
  split; [apply listing_join|]. split.
  - intros key. apply registered_keys.
  - apply reachable_unique_keys.
Qed.

End KernelTableFacts.

(** ** Resolution of a kernel *)

Section DispatchFacts.
Context `{Collaborators} `{HashLayout KernelFunction}.
Import TensorTypeSet.

Implicit Types (table : DispatchTable) (key : TensorTypeId)
  (kernel : KernelFunction).

Lemma dispatch_backend table dispatchKey kernel :
  backend_kernel table dispatchKey = Some kernel ->
  Dispatcher.dispatch_ table dispatchKey = Returned kernel.
Proof.
  unfold backend_kernel, Dispatcher.dispatch_. intros ->. reflexivity.
Qed.

Lemma dispatch_catchall table dispatchKey kernel :
  backend_kernel table dispatchKey = None ->
  DispatchTable.lookupCatchallKernel table = Some kernel ->
  Dispatcher.dispatch_ table dispatchKey = Returned kernel.
Proof.
  unfold backend_kernel, Dispatcher.dispatch_. intros -> ->. reflexivity.
Qed.

Lemma dispatch_no_key table :
  DispatchTable.lookupCatchallKernel table = None ->
  Dispatcher.dispatch_ table None
  = Thrown (NoTaggedArguments (DispatchTable.operatorName table)
              (DispatchTable.listAllDispatchKeys table)).
Proof. unfold Dispatcher.dispatch_. intros ->. reflexivity. Qed.

Lemma dispatch_undefined_key table :
  DispatchTable.lookup table UndefinedTensorId = None ->
  DispatchTable.lookupCatchallKernel table = None ->
  Dispatcher.dispatch_ table (Some UndefinedTensorId)
  = Thrown (NoTaggedArguments (DispatchTable.operatorName table)
              (DispatchTable.listAllDispatchKeys table)).
Proof. unfold Dispatcher.dispatch_. intros -> ->. reflexivity. Qed.

Lemma dispatch_no_kernel table key :
  key <> UndefinedTensorId ->
  DispatchTable.lookup table key = None ->
  DispatchTable.lookupCatchallKernel table = None ->
  Dispatcher.dispatch_ table (Some key)
  = Thrown (NoKernelFound (DispatchTable.operatorName table) (toString key)
              (DispatchTable.listAllDispatchKeys table)).
Proof.
  unfold Dispatcher.dispatch_. intros Hne -> ->.
  destruct (N.eqb_spec key UndefinedTensorId); [congruence | reflexivity].
Qed.

Lemma Thrown_inj {A : Type} (what what' : string) :
  @Thrown A what = Thrown what' -> what = what'.
Proof. congruence. Qed.

(** The two messages differ from their first character on. *)
Lemma failures_distinct name listing name' keyStr listing' :
  NoTaggedArguments name listing <> NoKernelFound name' keyStr listing'.
Proof. unfold NoTaggedArguments, NoKernelFound. discriminate. Qed.

(** An empty table finds no kernel. *)
Lemma lookup_empty_table table key :
  KernelTable_.size (kernels_ table) = 0%nat ->
  DispatchTable.lookup table key = None.
Proof.
  unfold KernelTable_.size, flat_hash_map.size, DispatchTable.lookup,
    KernelTable_.lookup.
  destruct (map_ (kernels_ table)); [reflexivity | discriminate].
Qed.

(** C1, as the code has it: when the arguments carry the tags A and B, A
    of higher priority, and the thread-local sets neither exclude A nor
    bring in a tag above it, the key of the call is A.  The kernel
    registered for A is returned whenever there is one.  When there is
    none, B is not tried: the catchall kernel is returned if one is
    registered, and the call fails with NoKernelFound for A otherwise. *)
Theorem priority_dispatch (local : LocalTensorTypeSet) (args : list Arg)
    (A B : TensorTypeId) table :
  UndefinedTensorId < B -> B < A ->
  multi_dispatch_tensor_type_set args = union (of_id A) (of_id B) ->
  has (excluded_ local) A = false ->
  (forall t, has (included_ local) t = true ->
             has (excluded_ local) t = false -> t <= A) ->
  let dispatchKey :=
    Some (dispatchTypeId local (multi_dispatch_tensor_type_set args)) in
  dispatchKey = Some A
  /\ (forall kernel, DispatchTable.lookup table A = Some kernel ->
        Dispatcher.dispatch_ table dispatchKey = Returned kernel)
  /\ (forall kernel, DispatchTable.lookup table A = None ->
        DispatchTable.lookupCatchallKernel table = Some kernel ->
        Dispatcher.dispatch_ table dispatchKey = Returned kernel)
  /\ (DispatchTable.lookup table A = None ->
      DispatchTable.lookupCatchallKernel table = None ->
      Dispatcher.dispatch_ table dispatchKey
      = Thrown (NoKernelFound (DispatchTable.operatorName table) (toString A)
                  (DispatchTable.listAllDispatchKeys table))).
Proof.
  intros HB HBA Hts Hex Hinc. cbv zeta.
  assert (Hkey : dispatchTypeId local (multi_dispatch_tensor_type_set args) = A).
  { unfold UndefinedTensorId in HB.
    apply dispatchTypeId_top; try assumption.
    - rewrite Hts, TensorTypeSetFacts.has_union, !TensorTypeSetFacts.has_of_id.
      rewrite N.eqb_refl. unfold UndefinedTensorId.
      destruct (N.eqb_spec A 0); [lia | reflexivity].
    - intros t. rewrite Hts, TensorTypeSetFacts.has_union,
        !TensorTypeSetFacts.has_of_id.
      destruct (N.eqb_spec A t), (N.eqb_spec B t); try lia.
      all: rewrite !andb_false_r; discriminate. }
  rewrite Hkey. split; [reflexivity|]. split; [|split].
  - intros kernel Hl. apply dispatch_backend. exact Hl.
  - intros kernel Hl Hc. apply dispatch_catchall; assumption.
  - intros Hl Hc. apply dispatch_no_kernel; try assumption.
    unfold UndefinedTensorId in *. lia.
Qed.

(** C2: when no kernel matches and no catchall is registered, the call
    fails; the failure is NoTaggedArguments exactly when the key is absent
    or undefined, and otherwise it is NoKernelFound with the printed key
    and the listing of the registered keys; the two failures differ. *)
Theorem dispatch_failure table (dispatchKey : option TensorTypeId) :
  backend_kernel table dispatchKey = None ->
  DispatchTable.lookupCatchallKernel table = None ->
  let name := DispatchTable.operatorName table in
  let listing := DispatchTable.listAllDispatchKeys table in
  (Dispatcher.dispatch_ table dispatchKey
   = Thrown (NoTaggedArguments name listing)
   <-> dispatchKey = None \/ dispatchKey = Some UndefinedTensorId)
  /\ (forall key, dispatchKey = Some key -> key <> UndefinedTensorId ->
        Dispatcher.dispatch_ table dispatchKey
        = Thrown (NoKernelFound name (toString key) listing))
  /\ (forall n l n' k' l', NoTaggedArguments n l <> NoKernelFound n' k' l').
Proof.
  intros Hb Hc. cbv zeta.
  assert (Hfound : forall key, dispatchKey = Some key ->
            key <> UndefinedTensorId ->
            Dispatcher.dispatch_ table dispatchKey
            = Thrown (NoKernelFound (DispatchTable.operatorName table)
                        (toString key)
                        (DispatchTable.listAllDispatchKeys table))).
  { intros key -> Hne. apply dispatch_no_kernel; assumption. }
  split; [|split; [exact Hfound | intros; apply failures_distinct]].
  split.
  - intros Heq. destruct dispatchKey as [key|]; [|left; reflexivity].
    right. destruct (N.eq_dec key UndefinedTensorId) as [->|Hne];
      [reflexivity|].
    rewrite (Hfound key eq_refl Hne) in Heq.
    apply Thrown_inj in Heq. symmetry in Heq.
    exfalso. exact (failures_distinct _ _ _ _ _ Heq).
  - intros [->| ->].
    + apply dispatch_no_key, Hc.
    + apply dispatch_undefined_key; assumption.
Qed.

End DispatchFacts.

(** ** Calls *)

Section CallFacts.
Context `{Collaborators} `{HashLayout KernelFunction}.

Implicit Types (d : Dispatcher) (h : OperatorHandle) (def : OperatorDef)
  (local : LocalTensorTypeSet).

(** A call through a handle that points at a node: the dispatcher is left
    as it was, no event is raised, and the outcome is that of the kernel
    which [dispatch_] resolves for the key of the call. *)
Lemma callBoxed_resolves local h stack d def :
  stdlist.deref (operatorIterator_ h) (operators_ d) = Some def ->
  Dispatcher.callBoxed local h stack d
  = (d, [],
     invoke (fun kernel => kernel_callBoxed kernel stack)
       (Dispatcher.dispatch_ (dispatchTable_ (op def))
          (getDispatchKeyBoxed
             (DispatchTable.dispatchKeyExtractor (dispatchTable_ (op def)))
             local stack))).
Proof.
  intros Hd.
  unfold Dispatcher.callBoxed, Method.bind, Dispatcher.entry,
    readDispatchTable, Method.lift, Method.ret.
  rewrite Hd.
  destruct (Dispatcher.dispatch_ _ _); reflexivity.
Qed.

Lemma callUnboxed_resolves local h args d def :
  stdlist.deref (operatorIterator_ h) (operators_ d) = Some def ->
  Dispatcher.callUnboxed local h args d
  = (d, [],
     invoke (fun kernel => kernel_callUnboxed kernel args)
       (Dispatcher.dispatch_ (dispatchTable_ (op def))
          (getDispatchKeyUnboxed
             (DispatchTable.dispatchKeyExtractor (dispatchTable_ (op def)))
             local args))).
Proof.
  intros Hd.
  unfold Dispatcher.callUnboxed, Method.bind, Dispatcher.entry,
    readDispatchTable, Method.lift, Method.ret.
  rewrite Hd.
  destruct (Dispatcher.dispatch_ _ _); reflexivity.
Qed.

Lemma callUnboxedOnly_resolves local h args d def :
  stdlist.deref (operatorIterator_ h) (operators_ d) = Some def ->
  Dispatcher.callUnboxedOnly local h args d
  = (d, [],
     invoke (fun kernel => kernel_callUnboxedOnly kernel args)
       (Dispatcher.dispatch_ (dispatchTable_ (op def))
          (getDispatchKeyUnboxed
             (DispatchTable.dispatchKeyExtractor (dispatchTable_ (op def)))
             local args))).
Proof.
  intros Hd.
  unfold Dispatcher.callUnboxedOnly, Method.bind, Dispatcher.entry,
    readDispatchTable, Method.lift, Method.ret.
  rewrite Hd.
  destruct (Dispatcher.dispatch_ _ _); reflexivity.
Qed.

(** A call through a handle that points at no node faults, and changes
    nothing either. *)
Lemma call_dangling local h stack args d :
  stdlist.deref (operatorIterator_ h) (operators_ d) = None ->
  Dispatcher.callBoxed local h stack d = (d, [], Fault)
  /\ Dispatcher.callUnboxed local h args d = (d, [], Fault)
  /\ Dispatcher.callUnboxedOnly local h args d = (d, [], Fault).
Proof.
  intros Hd.
  unfold Dispatcher.callBoxed, Dispatcher.callUnboxed,
    Dispatcher.callUnboxedOnly, Method.bind, Dispatcher.entry.
  rewrite Hd. repeat split.
Qed.

(** [dispatch_] never waits. *)
Lemma dispatch_not_blocked table dispatchKey :
  Dispatcher.dispatch_ table dispatchKey <> Blocked.
Proof.
  unfold Dispatcher.dispatch_.
  destruct (match dispatchKey with Some _ => _ | None => _ end); [discriminate|].
  destruct (DispatchTable.lookupCatchallKernel table); [discriminate|].
  destruct (match dispatchKey with Some _ => _ | None => _ end); discriminate.
Qed.

Lemma invoke_not_blocked {A B : Type} (f : A -> B) (r : Outcome A) :
  r <> Blocked -> invoke f r <> Blocked.
Proof. destruct r; cbn; congruence. Qed.

(** C4, as the code has it: a key that is present, be it a defined tag or
    the undefined id, and has a kernel in the table gets that kernel;
    otherwise a registered catchall kernel is returned; a call invokes the
    kernel so resolved; and a table without kernels and with a catchall
    answers every key, present or not, defined or not, with the catchall,
    so that every call through a handle to such an operator invokes the
    catchall and returns. *)
Theorem resolution_order table (dispatchKey : option TensorTypeId) :
  (forall key kernel, dispatchKey = Some key ->
     DispatchTable.lookup table key = Some kernel ->
     Dispatcher.dispatch_ table dispatchKey = Returned kernel)
  /\ (forall catchall, backend_kernel table dispatchKey = None ->
        DispatchTable.lookupCatchallKernel table = Some catchall ->
        Dispatcher.dispatch_ table dispatchKey = Returned catchall)
  /\ (forall kernel local h stack args d def,
        Dispatcher.dispatch_ table dispatchKey = Returned kernel ->
        stdlist.deref (operatorIterator_ h) (operators_ d) = Some def ->
        dispatchTable_ (op def) = table ->
        (getDispatchKeyBoxed (DispatchTable.dispatchKeyExtractor table)
           local stack = dispatchKey ->
         Dispatcher.callBoxed local h stack d
         = (d, [], Returned (kernel_callBoxed kernel stack)))
        /\ (getDispatchKeyUnboxed (DispatchTable.dispatchKeyExtractor table)
              local args = dispatchKey ->
            Dispatcher.callUnboxed local h args d
            = (d, [], Returned (kernel_callUnboxed kernel args))
            /\ Dispatcher.callUnboxedOnly local h args d
               = (d, [], Returned (kernel_callUnboxedOnly kernel args))))
  /\ (forall catchall, KernelTable_.size (kernels_ table) = 0%nat ->
        DispatchTable.lookupCatchallKernel table = Some catchall ->
        (forall anyKey : option TensorTypeId,
           Dispatcher.dispatch_ table anyKey = Returned catchall)
        /\ forall local h stack args d def,
             stdlist.deref (operatorIterator_ h) (operators_ d) = Some def ->
             dispatchTable_ (op def) = table ->
             Dispatcher.callBoxed local h stack d
             = (d, [], Returned (kernel_callBoxed catchall stack))
             /\ Dispatcher.callUnboxed local h args d
                = (d, [], Returned (kernel_callUnboxed catchall args))
             /\ Dispatcher.callUnboxedOnly local h args d
                = (d, [], Returned (kernel_callUnboxedOnly catchall args))).
Proof.
  split; [|split; [|split]].
  - intros key kernel -> Hl. apply dispatch_backend. exact Hl.
  - intros catchall Hb Hc. apply dispatch_catchall; assumption.
  - intros kernel local h stack args d def Hres Hd Htable. split.
    + intros Hkey. rewrite (callBoxed_resolves _ _ _ _ _ Hd).
      rewrite Htable, Hkey, Hres. reflexivity.
    + intros Hkey.
      rewrite (callUnboxed_resolves _ _ _ _ _ Hd),
        (callUnboxedOnly_resolves _ _ _ _ _ Hd).
      rewrite Htable, Hkey, Hres. split; reflexivity.
  - intros catchall Hsize Hc.
    assert (Hany : forall anyKey : option TensorTypeId,
              Dispatcher.dispatch_ table anyKey = Returned catchall).
    { intros anyKey. apply dispatch_catchall; [|exact Hc].
      destruct anyKey as [key|]; [|reflexivity].
      apply lookup_empty_table, Hsize. }
    split; [exact Hany|].
    intros local h stack args d def Hd Htable.
    rewrite (callBoxed_resolves _ _ _ _ _ Hd),
      (callUnboxed_resolves _ _ _ _ _ Hd),
      (callUnboxedOnly_resolves _ _ _ _ _ Hd).
    rewrite Htable, !Hany. repeat split.
Qed.

(** C10: the undefined id is looked up like any other key, before either
    failure is considered.  A kernel the table holds for it is what
    [dispatch_] returns for the undefined key; that is so after a kernel
    was set for the undefined id, whatever the table held before; and a
    call whose key is the undefined id invokes that kernel and returns. *)
Theorem undefined_key_is_looked_up table kernel name :
  (DispatchTable.lookup table UndefinedTensorId = Some kernel ->
   Dispatcher.dispatch_ table (Some UndefinedTensorId) = Returned kernel)
  /\ Dispatcher.dispatch_
       (mkDispatchTable
          (fst (KernelTable_.set UndefinedTensorId kernel name (kernels_ table)))
          (catchallKernel_ table) (dispatchKeyExtractor_ table)
          (operatorName_ table))
       (Some UndefinedTensorId) = Returned kernel
  /\ (forall local h stack d def,
        stdlist.deref (operatorIterator_ h) (operators_ d) = Some def ->
        dispatchTable_ (op def) = table ->
        getDispatchKeyBoxed (DispatchTable.dispatchKeyExtractor table)
          local stack = Some UndefinedTensorId ->
        DispatchTable.lookup table UndefinedTensorId = Some kernel ->
        Dispatcher.callBoxed local h stack d
        = (d, [], Returned (kernel_callBoxed kernel stack))).
Proof.
  split; [|split].
  - intros Hl. apply dispatch_backend. exact Hl.
  - apply dispatch_backend. cbn [backend_kernel].
    unfold DispatchTable.lookup. cbn [kernels_]. apply lookup_set_same.
  - intros local h stack d def Hd Htable Hkey Hl.
    rewrite (callBoxed_resolves _ _ _ _ _ Hd), Htable, Hkey.
    rewrite (dispatch_backend table (Some UndefinedTensorId) kernel Hl).
    reflexivity.
Qed.

(** C8: a call, boxed or typed, leaves the list of operators, the name
    index, every entry and every kernel table as they were; it raises no
    event, so the mutex is not taken; and it does not wait, whether or not
    another thread holds the mutex. *)
Theorem call_mutates_nothing local h stack args d :
  untouched (Dispatcher.callBoxed local h stack) d
  /\ untouched (Dispatcher.callUnboxed local h args) d
  /\ untouched (Dispatcher.callUnboxedOnly local h args) d.
Proof.
  unfold untouched.
  destruct (stdlist.deref (operatorIterator_ h) (operators_ d)) as [def|] eqn:Hd.
  - rewrite (callBoxed_resolves _ _ _ _ _ Hd),
      (callUnboxed_resolves _ _ _ _ _ Hd),
      (callUnboxedOnly_resolves _ _ _ _ _ Hd).
    cbn [fst snd].
    repeat split; apply invoke_not_blocked, dispatch_not_blocked.
  - destruct (call_dangling local h stack args d Hd) as (-> & -> & ->).
    cbn [fst snd]. repeat split; discriminate.
Qed.



End CallFacts.

(** ** The registry *)

Section RegistryFacts.
Context `{Collaborators} `{HashLayout KernelFunction}.

Implicit Types (d : Dispatcher) (h : OperatorHandle) (def : OperatorDef)
  (extractor : DispatchKeyExtractor) (schema : FunctionSchema)
  (options : OperatorOptions).

Lemma registry_ok_empty : registry_ok Dispatcher.empty.
Proof.
  split.
  - intros it [x Hx]. cbn in Hx. rewrite lookup_empty in Hx. discriminate.
  - intros name h Hl. cbn in Hl. rewrite lookup_empty in Hl. discriminate.
Qed.

(** The invariant does not look at the mutex. *)
Lemma registry_ok_mutex d held :
  registry_ok d ->
  registry_ok (mkDispatcher (operators_ d) (operatorLookupTable_ d) held).
Proof. intros Hok. exact Hok. Qed.

(** A write through an iterator moves no node and changes no other node. *)
Lemma deref_update_ne {A : Type} (it it' : nat) (f : A -> A) (l : stdlist A) :
  it <> it' ->
  stdlist.deref it' (stdlist.update it f l) = stdlist.deref it' l.
Proof. intros Hne. unfold stdlist.deref, stdlist.update. cbn [cells]. apply lookup_alter_ne, Hne. Qed.

Lemma deref_update_eq {A : Type} (it : nat) (f : A -> A) (l : stdlist A) :
  stdlist.deref it (stdlist.update it f l) = f <$> stdlist.deref it l.
Proof. unfold stdlist.deref, stdlist.update. cbn [cells]. apply lookup_alter_eq. Qed.

(** [emplace_back] leaves every allocated node where it is and as it is:
    iterators stay valid when the list grows. *)
Lemma deref_emplace_back_old {A : Type} (x : A) (l : stdlist A) (it : nat) :
  stdlist.allocated l -> is_Some (stdlist.deref it l) ->
  stdlist.deref it (fst (stdlist.emplace_back x l)) = stdlist.deref it l.
Proof.
  intros Hal Hs. unfold stdlist.deref, stdlist.emplace_back. cbn [fst cells].
  apply lookup_insert_ne. specialize (Hal it Hs). lia.
Qed.

Lemma deref_emplace_back_new {A : Type} (x : A) (l : stdlist A) :
  stdlist.deref (snd (stdlist.emplace_back x l)) (fst (stdlist.emplace_back x l))
  = Some x.
Proof. unfold stdlist.deref, stdlist.emplace_back. cbn [fst snd cells]. apply lookup_insert_eq. Qed.

Lemma allocated_update {A : Type} (it : nat) (f : A -> A) (l : stdlist A) :
  stdlist.allocated l -> stdlist.allocated (stdlist.update it f l).
Proof.
  unfold stdlist.allocated, stdlist.update. cbn [cells fresh].
  intros Hal it' [y Hy]. apply Hal.
  apply lookup_alter_Some in Hy as [[_ (x & Hx & _)]|[_ Hx]]; eauto.
Qed.

Lemma allocated_emplace_back {A : Type} (x : A) (l : stdlist A) :
  stdlist.allocated l -> stdlist.allocated (fst (stdlist.emplace_back x l)).
Proof.
  unfold stdlist.allocated, stdlist.emplace_back. cbn [fst cells fresh].
  intros Hal it [y Hy].
  apply lookup_insert_Some in Hy as [[<- _]|[_ Hy]]; [lia|].
  assert (it < fresh l)%nat by (apply Hal; eauto). lia.
Qed.

(** The dispatcher after the reference count of a live node went up. *)
Lemma registry_ok_bump d h def :
  registry_ok d ->
  stdlist.deref (operatorIterator_ h) (operators_ d) = Some def ->
  registry_ok
    (mkDispatcher
       (stdlist.update (operatorIterator_ h) bump_refcount (operators_ d))
       (operatorLookupTable_ d) false).
Proof.
  intros [Hal Hidx] Hd. split; cbn [operators_ operatorLookupTable_].
  - apply allocated_update, Hal.
  - intros name h' Hl. destruct (Hidx name h' Hl) as (def' & Hd' & Hname).
    destruct (decide (operatorIterator_ h = operatorIterator_ h')) as [Heq|Hne].
    + rewrite <- Heq, deref_update_eq, Hd. rewrite <- Heq, Hd in Hd'.
      injection Hd' as <-. exists (bump_refcount def). split; [reflexivity|].
      exact Hname.
    + rewrite deref_update_ne by exact Hne. exists def'. split; assumption.
Qed.

(** The ways a registration ends: it waits for the mutex; or it fails and
    only gives the mutex back; or it finds the entry of that name, with an
    equal schema, and counts one more reference; or it puts a new entry at
    the back of the list and into the name index. *)
Lemma registerSchema_cases extractor schema options d :
  let name := operator_name schema in
  let run := Dispatcher.registerSchema extractor schema options d in
  let token h := mkSchemaRegistrationHandleRAII h (h, name) in
  run = (d, [], Blocked)
  \/ (exists ev r,
        (forall t, r <> Returned t)
        /\ run = (mkDispatcher (operators_ d) (operatorLookupTable_ d) false,
                  ev, r))
  \/ (exists h def ev,
        operatorLookupTable_ d !! name = Some h
        /\ stdlist.deref (operatorIterator_ h) (operators_ d) = Some def
        /\ schema_ (op def) = schema
        /\ run = (mkDispatcher
                    (stdlist.update (operatorIterator_ h) bump_refcount
                       (operators_ d))
                    (operatorLookupTable_ d) false,
                  ev, Returned (token h)))
  \/ (exists ev,
        let emplaced :=
          stdlist.emplace_back (new_OperatorDef extractor schema options)
            (operators_ d) in
        let h := mkOperatorHandle (snd emplaced) in
        operatorLookupTable_ d !! name = None
        /\ run = (mkDispatcher
                    (stdlist.update (snd emplaced) bump_refcount (fst emplaced))
                    (<[name := h]> (operatorLookupTable_ d)) false,
                  ev, Returned (token h))).
Proof.
  cbv zeta.
  remember (Dispatcher.registerSchema extractor schema options d) as run eqn:Hrun.
  unfold Dispatcher.registerSchema, Method.lock_guard in Hrun.
  destruct (mutex_ d) eqn:Hm; [left; exact Hrun|]. right.
  unfold Dispatcher.findOrRegisterSchema_, Dispatcher.findSchema,
    Method.bind at 1 2 3 4 5 in Hrun.
  unfold Method.get, Method.ret in Hrun.
  cbn [operatorLookupTable_ operators_ mutex_] in Hrun.
  destruct (operatorLookupTable_ d !! operator_name schema) as [h'|] eqn:Hl.
  - unfold Method.bind, Dispatcher.entry in Hrun. cbn [operators_] in Hrun.
    destruct (stdlist.deref (operatorIterator_ h') (operators_ d))
      as [def'|] eqn:Hd.
    2:{ left. cbn [operators_ operatorLookupTable_ app] in Hrun.
        eexists _, _. split; [|exact Hrun]. discriminate. }
    destruct (decide (schema_ (op def') = schema)) as [Hs|Hs].
    2:{ left. cbn [Method.lift operators_ operatorLookupTable_ app] in Hrun.
        eexists _, _. split; [|exact Hrun]. discriminate. }
    right. left.
    unfold Method.ret, Dispatcher.increment_refcount in Hrun.
    cbn [operators_] in Hrun. rewrite Hd in Hrun.
    exists h', def'.
    destruct (S (refcount def') =? 1)%nat;
      cbn [Method.emit operators_ operatorLookupTable_] in Hrun;
      eexists; (split; [reflexivity|]); (split; [exact Hd|]);
      (split; [exact Hs|]); exact Hrun.
  - right. right.
    unfold Method.bind, Method.put, Method.ret, Dispatcher.increment_refcount
      in Hrun.
    cbn [operators_ operatorLookupTable_ mutex_ operatorIterator_] in Hrun.
    rewrite deref_emplace_back_new in Hrun.
    destruct (S (refcount (new_OperatorDef extractor schema options)) =? 1)%nat;
      cbn [Method.emit operators_ operatorLookupTable_] in Hrun;
      eexists; (split; [reflexivity | exact Hrun]).
Qed.

(** One registration keeps the invariant, and leaves alone every node
    that holds an operator of another name and every other name of the
    index. *)
Lemma registerSchema_step extractor schema options d :
  registry_ok d ->
  let d' := fst (fst (Dispatcher.registerSchema extractor schema options d)) in
  registry_ok d'
  /\ (forall it def,
        stdlist.deref it (operators_ d) = Some def ->
        operator_name (schema_ (op def)) <> operator_name schema ->
        stdlist.deref it (operators_ d') = Some def)
  /\ (forall name, name <> operator_name schema ->
        operatorLookupTable_ d' !! name = operatorLookupTable_ d !! name).
Proof.
  intros Hok. cbv zeta.
  destruct (registerSchema_cases extractor schema options d)
    as [Hrun|[(ev & r & _ & Hrun)|[(h' & def' & ev & Hl & Hd & Hs & Hrun)
                                  |(ev & Hl & Hrun)]]];
    cbv zeta in Hrun; rewrite Hrun; cbn [fst operators_ operatorLookupTable_].
  - split; [exact Hok | auto].
  - split; [apply registry_ok_mutex, Hok | auto].
  - split; [eapply registry_ok_bump; eassumption|]. split; [|auto].
    intros it def Hit Hname.
    rewrite deref_update_ne; [exact Hit|].
    intros <-. rewrite Hd in Hit. injection Hit as <-.
    apply Hname. rewrite Hs. reflexivity.
  - set (def0 := new_OperatorDef extractor schema options) in *.
    set (ops1 := fst (stdlist.emplace_back def0 (operators_ d))).
    set (it0 := snd (stdlist.emplace_back def0 (operators_ d))).
    assert (Hit0 : it0 = fresh (operators_ d)) by reflexivity.
    destruct Hok as [Hal Hidx].
    assert (Hold : forall it def,
              stdlist.deref it (operators_ d) = Some def ->
              stdlist.deref it (stdlist.update it0 bump_refcount ops1) = Some def).
    { intros it def Hit.
      assert (it < fresh (operators_ d))%nat
        by (apply Hal; change (is_Some (stdlist.deref it (operators_ d)));
            rewrite Hit; eauto).
      rewrite deref_update_ne by lia.
      unfold ops1. rewrite deref_emplace_back_old; [exact Hit | exact Hal |].
      rewrite Hit. eauto. }
    split; [|split; [intros it def Hit _; apply Hold, Hit|]].
    2:{ intros name Hname. apply lookup_insert_ne. congruence. }
    split; cbn [operators_ operatorLookupTable_].
    + apply allocated_update, allocated_emplace_back, Hal.
    + intros name h' Hl'.
      apply lookup_insert_Some in Hl' as [[<- <-]|[_ Hl']].
      * exists (bump_refcount def0). cbn [operatorIterator_].
        rewrite deref_update_eq. unfold ops1, it0.
        rewrite deref_emplace_back_new. split; reflexivity.
      * destruct (Hidx name h' Hl') as (def' & Hd' & Hname).
        exists def'. split; [apply Hold, Hd' | exact Hname].
Qed.

(** A handle the name index holds points at a live node. *)
Lemma findSchema_valid d name h :
  registry_ok d ->
  Dispatcher.findSchema name d = (d, [], Returned (Some h)) ->
  operatorLookupTable_ d !! name = Some h
  /\ is_Some (stdlist.deref (operatorIterator_ h) (operators_ d)).
Proof.
  intros [_ Hidx]. unfold Dispatcher.findSchema, Method.bind, Method.get, Method.ret.
  intros [= Hl]. split; [exact Hl|].
  destruct (Hidx name h Hl) as (def & -> & _). eauto.
Qed.

(** The handle a registration returns is the one the name index holds for
    the schema's name afterwards. *)
Lemma registerSchema_returns extractor schema options d token :
  snd (Dispatcher.registerSchema extractor schema options d) = Returned token ->
  operatorLookupTable_
    (fst (fst (Dispatcher.registerSchema extractor schema options d)))
  !! operator_name schema = Some (opHandle_ token).
Proof.
  destruct (registerSchema_cases extractor schema options d)
    as [Hrun|[(ev & r & Hr & Hrun)|[(h' & def' & ev & Hl & Hd & Hs & Hrun)
                                   |(ev & Hl & Hrun)]]];
    cbv zeta in Hrun; rewrite Hrun; cbn [fst snd operatorLookupTable_].
  - discriminate.
  - intros ->. exfalso. exact (Hr token eq_refl).
  - intros [= <-]. exact Hl.
  - intros [= <-]. apply lookup_insert_eq.
Qed.

(** A registration takes the mutex first, and waits when the mutex is
    held. *)
Lemma registerSchema_takes_mutex extractor schema options d :
  (mutex_ d = true ->
   Dispatcher.registerSchema extractor schema options d = (d, [], Blocked))
  /\ (mutex_ d = false ->
      exists ev,
        snd (fst (Dispatcher.registerSchema extractor schema options d))
        = MutexLock :: ev).
Proof.
  unfold Dispatcher.registerSchema, Method.lock_guard.
  destruct (mutex_ d); split; try discriminate; try reflexivity.
  intros _.
  destruct (Method.bind _ _ _) as [[d1 ev] r]. cbn [fst snd]. eauto.
Qed.

(** C7: a handle the registry gave out for a name points at a live node,
    and after any series of registrations of operators of other names it
    points at the same node, which holds the same entry with the same
    schema, options, dispatch table and reference count; the name index
    still gives that handle for the name. *)
Theorem handle_survives_registrations extractor d name h
    (regs : list (FunctionSchema * OperatorOptions)) :
  registry_ok d ->
  operatorLookupTable_ d !! name = Some h ->
  Forall (fun reg => operator_name (fst reg) <> name) regs ->
  let d' := Dispatcher.after_registrations extractor regs d in
  exists def,
    stdlist.deref (operatorIterator_ h) (operators_ d) = Some def
    /\ stdlist.deref (operatorIterator_ h) (operators_ d') = Some def
    /\ operatorLookupTable_ d' !! name = Some h.
Proof.
  intros Hok Hl Hregs. cbv zeta.
  destruct (proj2 Hok name h Hl) as (def & Hd & Hname).
  exists def. split; [exact Hd|].
  revert d Hok Hl Hd.
  induction Hregs as [|[schema options] regs Hne _ IH]; intros d Hok Hl Hd.
  - split; assumption.
  - cbn [Dispatcher.after_registrations fold_left fst snd].
    cbn [fst] in Hne.
    destruct (registerSchema_step extractor schema options d Hok)
      as (Hok' & Hnodes & Hnames).
    apply IH.
    + exact Hok'.
    + rewrite Hnames by congruence. exact Hl.
    + apply Hnodes; [exact Hd | congruence].
Qed.

End RegistryFacts.

(** * The properties at work on the sample setting *)

Section SampleFacts.
#[local] Existing Instance Sample.collaborators.
#[local] Existing Instance Sample.newest_first.
Import TensorTypeSet.

(** C1 fails as stated: the arguments carry the tags 2 and 1, only the tag
    1 has a kernel, and the call does not fall back to it.  Without a
    catchall the call fails with NoKernelFound for the tag 2; with a
    catchall it is the catchall that is returned.  And when the thread
    excludes the tag 2, the kernel of the tag 1 is returned although the
    tag 2 has a kernel. *)
Lemma priority_fallback_counterexample :
  let args := Sample.two_tags in
  let dispatchKey := extractKeyUnboxed Sample.no_override args in
  let table := Sample.dispatch_table [(1, 10)] None in
  let table' := Sample.dispatch_table [(1, 10)] (Some 99) in
  let excluding := mkLocalTensorTypeSet empty_set (of_id 2) in
  multi_dispatch_tensor_type_set args = union (of_id 2) (of_id 1)
  /\ DispatchTable.lookup table 2 = None
  /\ DispatchTable.lookup table 1 = Some (Sample.kernel 10)
  /\ Dispatcher.dispatch_ table dispatchKey
     = Thrown (NoKernelFound "aten::op" "2" "[1]")
  /\ Dispatcher.dispatch_ table dispatchKey <> Returned (Sample.kernel 10)
  /\ Dispatcher.dispatch_ table' dispatchKey = Returned (Sample.kernel 99)
  /\ Dispatcher.dispatch_ (Sample.dispatch_table [(1, 10); (2, 20)] None)
       (extractKeyUnboxed excluding args) = Returned (Sample.kernel 10).
Proof.
  cbv zeta. repeat split; try reflexivity.
  vm_compute. discriminate.
Qed.

(** The corrected C1 on a call with the tags 2 and 1 and kernels for both:
    the key is 2 and the kernel of the tag 2 is returned. *)
Lemma priority_dispatch_witness :
  let args := Sample.two_tags in
  let dispatchKey :=
    Some (dispatchTypeId Sample.no_override
            (multi_dispatch_tensor_type_set args)) in
  (UndefinedTensorId < 1 /\ 1 < 2)
  /\ dispatchKey = Some 2
  /\ Dispatcher.dispatch_ (Sample.dispatch_table [(1, 10); (2, 20)] None)
       dispatchKey = Returned (Sample.kernel 20).
Proof.
  cbv zeta.
  assert (H01 : UndefinedTensorId < 1) by reflexivity.
  assert (H12 : 1 < 2) by reflexivity.
  assert (Hex : has (excluded_ Sample.no_override) 2 = false) by reflexivity.
  assert (Hinc : forall t, has (included_ Sample.no_override) t = true ->
                   has (excluded_ Sample.no_override) t = false -> t <= 2).
  { intros t Ht. cbn [included_ Sample.no_override] in Ht.
    rewrite TensorTypeSetFacts.has_empty_set in Ht. discriminate. }
  destruct (priority_dispatch Sample.no_override Sample.two_tags 2 1
              (Sample.dispatch_table [(1, 10); (2, 20)] None)
              H01 H12 eq_refl Hex Hinc) as (Hkey & Hfound & _).
  split; [split; assumption|]. split; [exact Hkey|].
  apply Hfound. reflexivity.
Defined.

(** C2 on a table with a kernel for the tag 1 only: the key 2 fails with
    NoKernelFound, and a call without a key with NoTaggedArguments. *)
Lemma dispatch_failure_witness :
  let table := Sample.dispatch_table [(1, 10)] None in
  (backend_kernel table (Some 2) = None
   /\ backend_kernel table None = None
   /\ DispatchTable.lookupCatchallKernel table = None)
  /\ Dispatcher.dispatch_ table (Some 2)
     = Thrown (NoKernelFound "aten::op" "2" "[1]")
  /\ Dispatcher.dispatch_ table None
     = Thrown (NoTaggedArguments "aten::op" "[1]").
Proof.
  cbv zeta.
  assert (Hb : backend_kernel (Sample.dispatch_table [(1, 10)] None) (Some 2)
               = None) by reflexivity.
  assert (Hn : backend_kernel (Sample.dispatch_table [(1, 10)] None) None
               = None) by reflexivity.
  assert (Hc : DispatchTable.lookupCatchallKernel
                 (Sample.dispatch_table [(1, 10)] None) = None)
    by reflexivity.
  split; [repeat split; assumption|]. split.
  - apply (proj1 (proj2 (dispatch_failure _ (Some 2) Hb Hc)) 2 eq_refl).
    discriminate.
  - apply (proj1 (dispatch_failure _ None Hn Hc)). left. reflexivity.
Defined.

(** C3 with the argument tags 3 and 2, while the thread includes the tag 1
    and excludes the tag 3: the key is 2. *)
Lemma dispatchTypeId_highest_priority_witness :
  let local := mkLocalTensorTypeSet (of_id 1) (of_id 3) in
  let ts := union (of_id 3) (of_id 2) in
  let effective := minus (union ts (included_ local)) (excluded_ local) in
  dispatchTypeId local ts = 2
  /\ has effective 1 = true
  /\ has effective (dispatchTypeId local ts) = true
  /\ 1 <= dispatchTypeId local ts.
Proof.
  cbv zeta. split; [reflexivity|]. split; [reflexivity|].
  apply (proj1 (proj2 (proj2
           (dispatchTypeId_highest_priority
              (mkLocalTensorTypeSet (of_id 1) (of_id 3))
              (union (of_id 3) (of_id 2))))) 1).
  reflexivity.
Defined.

(** C4 fails as stated for the undefined key: the table holds a kernel
    for the undefined id, set like any other, and a catchall.  A call
    whose key is the undefined id gets the kernel of the undefined id and
    not the catchall. *)
Lemma undefined_key_before_catchall_counterexample :
  let table := Sample.dispatch_table [(UndefinedTensorId, 7)] (Some 99) in
  let d := Sample.registry [(UndefinedTensorId, 7)] (Some 99) in
  DispatchTable.lookup table UndefinedTensorId = Some (Sample.kernel 7)
  /\ DispatchTable.lookupCatchallKernel table = Some (Sample.kernel 99)
  /\ Dispatcher.dispatch_ table (Some UndefinedTensorId)
     = Returned (Sample.kernel 7)
  /\ Dispatcher.dispatch_ table (Some UndefinedTensorId)
     <> Returned (Sample.kernel 99)
  /\ getDispatchKeyUnboxed Sample.extractor Sample.no_override
       MoreSamples.no_tensors = Some UndefinedTensorId
  /\ Dispatcher.callUnboxed Sample.no_override Sample.handle
       MoreSamples.no_tensors d
     = (d, [], Returned 7)
  /\ kernel_callUnboxed (Sample.kernel 99) MoreSamples.no_tensors = 99.
Proof.
  cbv zeta. repeat split; try reflexivity.
  intros Heq.
  apply (f_equal (fun r : Outcome (@KernelFunction Sample.collaborators) =>
                    match r return N with
                    | Returned kernel =>
                        @kernel_callUnboxed Sample.collaborators kernel []
                    | _ => 0
                    end)) in Heq.
  vm_compute in Heq. discriminate.
Qed.

(** The corrected C4 on a table with kernels for the tag 1 and for the
    undefined id and with a catchall, and on a table without kernels and
    with a catchall. *)
Lemma resolution_order_witness :
  let table := Sample.dispatch_table [(1, 10); (UndefinedTensorId, 7)] (Some 99) in
  let bare := Sample.dispatch_table [] (Some 99) in
  Dispatcher.dispatch_ table (Some 1) = Returned (Sample.kernel 10)
  /\ Dispatcher.dispatch_ table (Some UndefinedTensorId)
     = Returned (Sample.kernel 7)
  /\ Dispatcher.dispatch_ table (Some 2) = Returned (Sample.kernel 99)
  /\ Dispatcher.dispatch_ table None = Returned (Sample.kernel 99)
  /\ KernelTable_.size (kernels_ bare) = 0%nat
  /\ forall anyKey : option TensorTypeId,
       Dispatcher.dispatch_ bare anyKey = Returned (Sample.kernel 99).
Proof.
  cbv zeta.
  split; [|split; [|split; [|split; [|split; [reflexivity|]]]]].
  - apply (proj1 (resolution_order
             (Sample.dispatch_table [(1, 10); (UndefinedTensorId, 7)] (Some 99))
             (Some 1)) 1 (Sample.kernel 10)); reflexivity.
  - apply (proj1 (resolution_order
             (Sample.dispatch_table [(1, 10); (UndefinedTensorId, 7)] (Some 99))
             (Some UndefinedTensorId)) UndefinedTensorId (Sample.kernel 7));
      reflexivity.
  - apply (proj1 (proj2 (resolution_order
             (Sample.dispatch_table [(1, 10); (UndefinedTensorId, 7)] (Some 99))
             (Some 2))) (Sample.kernel 99)); reflexivity.
  - apply (proj1 (proj2 (resolution_order
             (Sample.dispatch_table [(1, 10); (UndefinedTensorId, 7)] (Some 99))
             None)) (Sample.kernel 99)); reflexivity.
  - destruct (resolution_order (Sample.dispatch_table [] (Some 99)) None)
      as (_ & _ & _ & Hcatchall).
    apply (Hcatchall (Sample.kernel 99) eq_refl eq_refl).
Defined.

(** C5 on a table that holds a kernel for the tag 2: two registrations
    for the tag 1 leave the second one, next to the kernel of the tag 2. *)
Lemma set_twice_last_wins_witness :
  let first :=
    KernelTable_.set 1 (Sample.kernel 10) "aten::op" (Sample.table_of [(2, 20)]) in
  let second := KernelTable_.set 1 (Sample.kernel 11) "aten::op" (fst first) in
  KernelTable_.lookup 1 (fst second) = Some (Sample.kernel 11)
  /\ snd second = [KernelTable_.overwrite_warning "aten::op" 1]
  /\ map_ (fst second) = [(1, Sample.kernel 11); (2, Sample.kernel 20)].
Proof.
  cbv zeta.
  destruct (set_twice_last_wins (Sample.table_of [(2, 20)]) 1
              (Sample.kernel 10) (Sample.kernel 11) "aten::op")
    as (Hlookup & _ & Hwarn & _).
  split; [exact Hlookup|]. split; [exact Hwarn | reflexivity].
Defined.

(** The order of the listing is the hash map's: with a hash map that
    iterates from the newest entry to the oldest, two tables built by
    registrations, with the same kernels for the same two tags, list the
    tags in two different orders. *)
Lemma listing_order_newest_first :
  let tbl := Sample.table_of [(1, 10); (2, 20)] in
  let tbl' := Sample.table_of [(2, 20); (1, 10)] in
  (reachable tbl /\ reachable tbl')
  /\ (forall key, KernelTable_.lookup key tbl = KernelTable_.lookup key tbl')
  /\ flat_hash_map.keys (map_ tbl) = [2; 1]
  /\ flat_hash_map.keys (map_ tbl') = [1; 2]
  /\ KernelTable_.list_all_dispatch_keys tbl = "[2, 1]"
  /\ KernelTable_.list_all_dispatch_keys tbl' = "[1, 2]"
  /\ KernelTable_.list_all_dispatch_keys tbl
     <> KernelTable_.list_all_dispatch_keys tbl'.
Proof.
  cbv zeta. split; [|split; [|do 4 (split; [reflexivity|])]].
  - split; repeat apply reachable_set; apply reachable_empty.
  - intros key.
    change (flat_hash_map.find key
              [(2, Sample.kernel 20); (1, Sample.kernel 10)]
            = flat_hash_map.find key
                [(1, Sample.kernel 10); (2, Sample.kernel 20)]).
    cbn [flat_hash_map.find].
    destruct (N.eqb_spec 2 key), (N.eqb_spec 1 key); try reflexivity; lia.
  - vm_compute. discriminate.
Qed.

(** X21 on a table built by registering the tag 3 and then the tag 1. *)
Lemma list_all_dispatch_keys_witness :
  let tbl := Sample.table_of [(3, 30); (1, 10)] in
  KernelTable_.list_all_dispatch_keys tbl
  = "[" +:+ String.concat ", " ["1"; "3"] +:+ "]"
  /\ registered tbl 3 = true.
Proof.
  cbv zeta.
  destruct (list_all_dispatch_keys_iteration_order
              (Sample.table_of [(3, 30); (1, 10)])) as (Hlist & Hkeys & _).
  split; [exact Hlist|].
  apply Hkeys. right. left. reflexivity.
Defined.

(** C7: the handle of the operator [a] after [b], [c] and [b] again were
    registered. *)
Lemma handle_survives_registrations_witness :
  let d := fst (fst Sample.registered_a) in
  let h := mkOperatorHandle 0 in
  let regs := [(Sample.schema "b", tt); (Sample.schema "c", tt);
               (Sample.schema "b", tt)] in
  let d' := Dispatcher.after_registrations Sample.extractor regs d in
  (operatorLookupTable_ d !! ("a", EmptyString)%string = Some h
   /\ Forall (fun reg => operator_name (fst reg) <> ("a", EmptyString)%string)
        regs)
  /\ exists def,
       stdlist.deref (operatorIterator_ h) (operators_ d) = Some def
       /\ stdlist.deref (operatorIterator_ h) (operators_ d') = Some def
       /\ operatorLookupTable_ d' !! ("a", EmptyString)%string = Some h.
Proof.
  cbv zeta.
  assert (Hok : registry_ok (fst (fst Sample.registered_a))).
  { apply (registerSchema_step Sample.extractor (Sample.schema "a") tt
             Dispatcher.empty registry_ok_empty). }
  assert (Hl : operatorLookupTable_ (fst (fst Sample.registered_a))
               !! ("a", EmptyString)%string = Some (mkOperatorHandle 0)).
  { apply (registerSchema_returns Sample.extractor (Sample.schema "a") tt
             Dispatcher.empty
             (mkSchemaRegistrationHandleRAII (mkOperatorHandle 0)
                (mkOperatorHandle 0, ("a", EmptyString)%string))).
    reflexivity. }
  assert (Hregs : Forall
            (fun reg : FunctionSchema * OperatorOptions =>
               operator_name (fst reg) <> ("a", EmptyString)%string)
            [(Sample.schema "b", tt); (Sample.schema "c", tt);
             (Sample.schema "b", tt)]).
  { repeat constructor; discriminate. }
  split; [split; assumption|].
  exact (handle_survives_registrations Sample.extractor _ _ _ _ Hok Hl Hregs).
Defined.

(** C8: a boxed call that goes through while another thread holds the
    mutex. *)
Lemma call_mutates_nothing_witness :
  let d := Sample.busy_registry [(1, 10); (2, 20)] None in
  mutex_ d = true
  /\ Dispatcher.callBoxed Sample.no_override Sample.handle
       Sample.two_tags_stack d
     = (d, [], Returned (mkTensorTypeSet 20 :: Sample.two_tags_stack))
  /\ untouched
       (Dispatcher.callUnboxed Sample.no_override Sample.handle Sample.two_tags)
       d.
Proof.
  cbv zeta. split; [reflexivity|].
  destruct (call_mutates_nothing Sample.no_override Sample.handle
              Sample.two_tags_stack Sample.two_tags
              (Sample.busy_registry [(1, 10); (2, 20)] None))
    as ((Hstate & Hevents & _) & Hunboxed & _).
  split; [|exact Hunboxed].
  destruct (Dispatcher.callBoxed Sample.no_override Sample.handle
              Sample.two_tags_stack
              (Sample.busy_registry [(1, 10); (2, 20)] None))
    as [[d1 ev] r] eqn:Hcall.
  cbn [fst snd] in Hstate, Hevents. subst d1 ev.
  f_equal.
  change r with (snd (Sample.busy_registry [(1, 10); (2, 20)] None, @nil Event, r)).
  rewrite <- Hcall. reflexivity.
Defined.



(** C10 on a table in which a kernel was set for the undefined id. *)
Lemma undefined_key_is_looked_up_witness :
  let table := Sample.dispatch_table [(UndefinedTensorId, 7)] None in
  DispatchTable.lookup table UndefinedTensorId = Some (Sample.kernel 7)
  /\ Dispatcher.dispatch_ table (Some UndefinedTensorId)
     = Returned (Sample.kernel 7).
Proof.
  cbv zeta.
  assert (Hl : DispatchTable.lookup
                 (Sample.dispatch_table [(UndefinedTensorId, 7)] None)
                 UndefinedTensorId = Some (Sample.kernel 7)) by reflexivity.
  split; [exact Hl|].
  exact (proj1 (undefined_key_is_looked_up _ _ "aten::op") Hl).
Defined.

End SampleFacts.

(** * Further properties of the code *)

(** ** The type set of the arguments *)

Section ArgumentFacts.
Context `{Collaborators}.
Import TensorTypeSet TensorTypeSetFacts.

(** Two sets with the same members are the same word. *)
Lemma has_ext (a b : TensorTypeSet) :
  (forall t, has a t = has b t) -> a = b.
Proof.
  destruct a as [x], b as [y]. intros Hm. f_equal.
  apply N.bits_inj. intros n. specialize (Hm (n + 1)).
  unfold has, UndefinedTensorId in Hm. cbn [repr_] in Hm.
  replace (n + 1 - 1) with n in Hm by lia.
  destruct (N.eqb_spec (n + 1) 0); [lia|]. exact Hm.
Qed.

Lemma has_fold_tensors (xs : list Tensor) (acc : TensorTypeSet) t :
  has (fold_left (fun ts x => union ts (tensor_type_set x)) xs acc) t
  = has acc t || existsb (fun x => has (tensor_type_set x) t) xs.
Proof.
  revert acc. induction xs as [|x xs IH]; intros acc; cbn [fold_left existsb].
  - rewrite orb_false_r. reflexivity.
  - rewrite IH, has_union, orb_assoc. reflexivity.
Qed.

Lemma has_visit (ts : TensorTypeSet) (a : Arg) t :
  has (visit ts a) t = has ts t || carries a t.
Proof.
  destruct a as [x|x|xs|x]; cbn [visit carries].
  - apply has_union.
  - apply has_union.
  - apply has_fold_tensors.
  - rewrite orb_false_r. reflexivity.
Qed.

Lemma has_fold_visit (args : list Arg) (acc : TensorTypeSet) t :
  has (fold_left visit args acc) t
  = has acc t || existsb (fun a => carries a t) args.
Proof.
  revert acc. induction args as [|a args IH]; intros acc; cbn [fold_left existsb].
  - rewrite orb_false_r. reflexivity.
  - rewrite IH, has_visit, orb_assoc. reflexivity.
Qed.

Lemma existsb_Permutation {A : Type} (f : A -> bool) (l l' : list A) :
  Permutation l l' -> existsb f l = existsb f l'.
Proof.
  induction 1 as [|x l l' _ IH|x y l|l l' l'' _ IH1 _ IH2]; cbn [existsb].
  - reflexivity.
  - rewrite IH. reflexivity.
  - rewrite !orb_assoc, (orb_comm (f y)). reflexivity.
  - congruence.
Qed.

Lemma has_multi_dispatch (args : list Arg) t :
  has (multi_dispatch_tensor_type_set args) t
  = existsb (fun a => carries a t) args.
Proof.
  unfold multi_dispatch_tensor_type_set.
  rewrite has_fold_visit, has_empty_set. apply orb_false_l.
Qed.

(** X1: a tag is in the type set of a call exactly when one of the
    arguments carries it: a tensor, tensor options, or an element of a
    list of tensors. *)
Theorem multi_dispatch_collects_tags (args : list Arg) (t : TensorTypeId) :
  has (multi_dispatch_tensor_type_set args) t
  = existsb (fun a => carries a t) args.
Proof.
  unfold multi_dispatch_tensor_type_set.
  rewrite has_fold_visit, has_empty_set. reflexivity.
Qed.

(** X2: the type set of a call does not depend on the order of the
    arguments, and the set of two runs of arguments put together is the
    union of their sets. *)
Theorem multi_dispatch_order_and_append (args args' : list Arg) :
  (Permutation args args' ->
   multi_dispatch_tensor_type_set args = multi_dispatch_tensor_type_set args')
  /\ multi_dispatch_tensor_type_set (args ++ args')
     = union (multi_dispatch_tensor_type_set args)
         (multi_dispatch_tensor_type_set args').
Proof.
  split.
  - intros Hp. apply has_ext. intros t.
    unfold multi_dispatch_tensor_type_set.
    rewrite !has_fold_visit. f_equal. apply existsb_Permutation, Hp.
  - apply has_ext. intros t. rewrite has_union.
    unfold multi_dispatch_tensor_type_set.
    rewrite !has_fold_visit, !has_empty_set. cbn [orb].
    apply existsb_app.
Qed.

(** X3: a list of tensors counts like its elements passed one by one, an
    empty list and an argument that is no tensor count for nothing. *)
Theorem multi_dispatch_lists_and_others (xs : list Tensor) (x : Other)
    (before after : list Arg) :
  multi_dispatch_tensor_type_set (before ++ ArgTensorList xs :: after)
  = multi_dispatch_tensor_type_set (before ++ map ArgTensor xs ++ after)
  /\ multi_dispatch_tensor_type_set (before ++ ArgTensorList [] :: after)
     = multi_dispatch_tensor_type_set (before ++ after)
  /\ multi_dispatch_tensor_type_set (before ++ ArgOther x :: after)
     = multi_dispatch_tensor_type_set (before ++ after).
Proof.
  assert (Hspread : forall t,
            existsb (fun a => carries a t) (map ArgTensor xs)
            = existsb (fun x => has (tensor_type_set x) t) xs).
  { intros t. induction xs as [|y ys IH]; cbn [map existsb carries];
      [reflexivity | rewrite IH; reflexivity]. }
  repeat split; apply has_ext; intros t;
    rewrite !has_multi_dispatch, !existsb_app; cbn [existsb carries].
  - rewrite Hspread. reflexivity.
  - reflexivity.
  - reflexivity.
Qed.


End ArgumentFacts.

(** ** The dispatch key of a call *)

Section DispatchKeyFacts.
Context `{Collaborators}.
Import TensorTypeSet TensorTypeSetFacts.

Implicit Types (local : LocalTensorTypeSet) (ts : TensorTypeSet).

(** The set the key is taken from. *)
Lemma key_of_effective local ts :
  dispatchTypeId local ts
  = highestPriorityTypeId
      (minus (union ts (included_ local)) (excluded_ local)).
Proof. reflexivity. Qed.

(** A key other than the undefined id is a member of that set. *)
Lemma key_is_member local ts :
  dispatchTypeId local ts <> UndefinedTensorId ->
  has (minus (union ts (included_ local)) (excluded_ local))
      (dispatchTypeId local ts) = true.
Proof.
  intros Hk. rewrite key_of_effective in *. apply highest_is_member.
  intros Hz. apply Hk. unfold highestPriorityTypeId. rewrite Hz. reflexivity.
Qed.

(** A key is at most the key of a larger set. *)
Lemma key_le (s s' : TensorTypeSet) :
  (forall t, has s t = true -> has s' t = true) ->
  highestPriorityTypeId s <= highestPriorityTypeId s'.
Proof.
  intros Hsub. destruct (N.eq_dec (repr_ s) 0) as [Hz|Hnz].
  - unfold highestPriorityTypeId at 1. rewrite Hz. apply N.le_0_l.
  - apply member_le_highest, Hsub, highest_is_member, Hnz.
Qed.

Lemma has_no_local ts t :
  has (minus (union ts (included_ no_local)) (excluded_ no_local)) t = has ts t.
Proof.
  rewrite has_effective. cbn [no_local included_ excluded_].
  rewrite has_empty_set, orb_false_r, andb_true_r. reflexivity.
Qed.

(** X4: on a thread without included and excluded tags, the key of a call
    is the undefined id exactly when no argument carries a tag; otherwise
    it is a tag that some argument carries, and no argument carries a
    higher one. *)
Theorem key_of_arguments (args : list Arg) :
  let key := dispatchTypeId no_local (multi_dispatch_tensor_type_set args) in
  (key = UndefinedTensorId
   <-> forall t, existsb (fun a => carries a t) args = false)
  /\ (forall t, existsb (fun a => carries a t) args = true ->
        existsb (fun a => carries a key) args = true /\ t <= key).
Proof.
  cbv zeta. set (ts := multi_dispatch_tensor_type_set args).
  assert (Hmem : forall t,
            has (minus (union ts (included_ no_local)) (excluded_ no_local)) t
            = existsb (fun a => carries a t) args).
  { intros t. rewrite has_no_local. apply has_multi_dispatch. }
  split; [split|].
  - intros Hk t. rewrite <- Hmem.
    destruct (has _ t) eqn:Ht; [|reflexivity].
    pose proof (member_le_highest _ _ Ht) as Hle.
    rewrite <- key_of_effective, Hk in Hle.
    apply N.le_0_r in Hle. subst t. rewrite has_undefined in Ht.
    discriminate.
  - intros Hnone. rewrite key_of_effective. apply no_member_undefined.
    intros t. rewrite Hmem. apply Hnone.
  - intros t Ht. rewrite <- Hmem in Ht. rewrite <- Hmem. split.
    + rewrite key_of_effective. apply highest_is_member.
      eapply has_nonzero, Ht.
    + rewrite key_of_effective. apply member_le_highest, Ht.
Qed.

(** X5: the key is never an excluded tag, and a key other than the
    undefined id is a tag of the arguments or an included tag. *)
Theorem key_respects_override local ts :
  has (excluded_ local) (dispatchTypeId local ts) = false
  /\ (dispatchTypeId local ts <> UndefinedTensorId ->
      has ts (dispatchTypeId local ts)
      || has (included_ local) (dispatchTypeId local ts) = true).
Proof.
  destruct (N.eq_dec (dispatchTypeId local ts) UndefinedTensorId) as [Hz|Hnz].
  - rewrite Hz. split; [apply has_undefined | congruence].
  - pose proof (key_is_member local ts Hnz) as Hm.
    rewrite has_effective in Hm. apply andb_prop in Hm as [Hin Hout].
    split; [apply negb_true_iff, Hout | intros _; exact Hin].
Qed.

(** X6: more tags among the arguments or the included set, and fewer
    excluded tags, never lower the key. *)
Theorem key_monotone local local' ts ts' :
  (forall t, has ts t = true -> has ts' t = true) ->
  (forall t, has (included_ local) t = true ->
             has (included_ local') t = true) ->
  (forall t, has (excluded_ local') t = true ->
             has (excluded_ local) t = true) ->
  dispatchTypeId local ts <= dispatchTypeId local' ts'.
Proof.
  intros Hts Hinc Hexc. rewrite !key_of_effective. apply key_le.
  intros t. rewrite !has_effective. intros Ht.
  apply andb_prop in Ht as [Hin Hout]. apply negb_true_iff in Hout.
  apply andb_true_intro. split.
  - apply orb_prop in Hin as [Hin|Hin]; apply orb_true_intro;
      [left; apply Hts, Hin | right; apply Hinc, Hin].
  - apply negb_true_iff. destruct (has (excluded_ local') t) eqn:He;
      [|reflexivity].
    apply Hexc in He. congruence.
Qed.

(** X7: when a thread excludes the tag that is the key of a call, the key
    becomes the next tag below it that was in play, or the undefined id if
    there is none: the new key is strictly lower; it is the undefined id
    exactly when the old key was the only tag in play; otherwise it is
    itself a tag that was in play; and no tag that was in play other than
    the old key is above it. *)
Theorem excluding_the_key_gives_the_next local ts :
  let effective := minus (union ts (included_ local)) (excluded_ local) in
  let key := dispatchTypeId local ts in
  let key' := dispatchTypeId (exclude key local) ts in
  key <> UndefinedTensorId ->
  key' < key
  /\ (key' = UndefinedTensorId
      <-> forall t, has effective t = true -> t = key)
  /\ (key' <> UndefinedTensorId -> has effective key' = true)
  /\ (forall t, has effective t = true -> t <> key -> t <= key').
Proof.
  cbv zeta. intros Hk.
  set (key := dispatchTypeId local ts) in *.
  assert (Hmem : forall t,
            has (minus (union ts (included_ (exclude key local)))
                   (excluded_ (exclude key local))) t
            = has (minus (union ts (included_ local)) (excluded_ local)) t
              && negb (key =? t)).
  { intros t. rewrite !has_effective. cbn [exclude included_ excluded_].
    rewrite has_union, has_of_id.
    destruct (N.eqb_spec t UndefinedTensorId) as [->|Ht].
    - rewrite !has_undefined. reflexivity.
    - cbn [negb andb]. rewrite negb_orb, andb_assoc. reflexivity. }
  assert (Hbound : forall t,
            has (minus (union ts (included_ local)) (excluded_ local)) t
            = true ->
            t <> key -> t <= dispatchTypeId (exclude key local) ts).
  { intros t Ht Hne. rewrite key_of_effective. apply member_le_highest.
    rewrite Hmem, Ht. apply negb_true_iff, N.eqb_neq. congruence. }
  assert (Hin : dispatchTypeId (exclude key local) ts <> UndefinedTensorId ->
            has (minus (union ts (included_ local)) (excluded_ local))
              (dispatchTypeId (exclude key local) ts) = true
            /\ dispatchTypeId (exclude key local) ts <> key).
  { intros Hnz. pose proof (key_is_member _ ts Hnz) as Hm.
    rewrite Hmem in Hm. apply andb_prop in Hm as [Hold Hne].
    split; [exact Hold|].
    apply negb_true_iff, N.eqb_neq in Hne. congruence. }
  split; [|split; [|split]].
  - destruct (N.eq_dec (dispatchTypeId (exclude key local) ts)
                UndefinedTensorId) as [Hz|Hnz].
    + rewrite Hz. unfold UndefinedTensorId in *. lia.
    + destruct (Hin Hnz) as [Hold Hne].
      apply member_le_highest in Hold. rewrite <- key_of_effective in Hold.
      fold key in Hold. lia.
  - split.
    + intros Hz t Ht. destruct (N.eq_dec t key) as [Heq|Hne]; [exact Heq|].
      pose proof (Hbound t Ht Hne) as Hle. rewrite Hz in Hle.
      apply N.le_0_r in Hle. subst t. rewrite has_undefined in Ht.
      discriminate.
    + intros Honly. rewrite key_of_effective. apply no_member_undefined.
      intros t. rewrite Hmem.
      destruct (has (minus (union ts (included_ local)) (excluded_ local)) t)
        eqn:Ht; [|reflexivity].
      rewrite (Honly t Ht), N.eqb_refl. reflexivity.
  - intros Hnz. apply Hin, Hnz.
  - exact Hbound.
Qed.

End DispatchKeyFacts.

(** ** Removal, size and overwriting in the kernel table *)

Section KernelTableMore.
Context `{Collaborators} `{HashLayout KernelFunction}.
Import flat_hash_map.

Implicit Types (tbl : KernelTable_) (key : TensorTypeId)
  (kernel : KernelFunction) (name : string)
  (m : list (TensorTypeId * KernelFunction)).

Lemma find_erase_other key m k :
  k <> key -> find k (fst (erase key m)) = find k m.
Proof.
  intros Hne. unfold erase. cbn [fst].
  induction m as [|[k' w] m IH]; cbn [List.filter fst find]; [reflexivity|].
  destruct (N.eqb_spec k' key) as [->|Hk']; cbn [negb find].
  - destruct (N.eqb_spec key k); [congruence | exact IH].
  - rewrite IH. reflexivity.
Qed.

(** Erasing a key that is not there changes nothing and removes nothing. *)
Lemma erase_absent key m : find key m = None -> erase key m = (m, 0%nat).
Proof.
  intros Hf. unfold erase.
  assert (Hsame : List.filter (fun kv => negb (fst kv =? key)) m = m).
  { apply forallb_filter_id, forallb_forall. intros [k w] Hin. cbn [fst].
    apply negb_true_iff, N.eqb_neq. intros ->.
    apply find_None in Hf. apply Hf. apply (in_map fst) in Hin. exact Hin. }
  rewrite Hsame, Nat.sub_diag. reflexivity.
Qed.

(** With unique keys, erasing a key that is there removes one entry. *)
Lemma erase_present key m :
  NoDup (keys m) -> In key (keys m) ->
  S (length (fst (erase key m))) = length m.
Proof.
  unfold erase, keys. cbn [fst].
  induction m as [|[k w] m IH]; cbn [map fst List.filter length In];
    [intros _ []|].
  intros Hnd Hin. apply NoDup_cons in Hnd as [Hk Hnd].
  rewrite list_elem_of_In in Hk.
  destruct (N.eqb_spec k key) as [->|Hne]; cbn [negb length].
  - f_equal. f_equal. apply forallb_filter_id, forallb_forall.
    intros [k' w'] Hin'. cbn [fst]. apply negb_true_iff, N.eqb_neq.
    intros ->. apply Hk. apply (in_map fst) in Hin'. exact Hin'.
  - f_equal. apply IH; [exact Hnd|]. destruct Hin as [Heq|Hin]; [congruence|].
    exact Hin.
Qed.

Lemma length_assign key kernel m : length (assign key kernel m) = length m.
Proof. unfold assign. apply length_map. Qed.

Lemma registered_lookup tbl key :
  registered tbl key = true <-> is_Some (KernelTable_.lookup key tbl).
Proof.
  unfold registered. destruct (KernelTable_.lookup key tbl); split; eauto;
    try discriminate. intros [? [=]].
Qed.

Lemma not_registered_lookup tbl key :
  registered tbl key = false <-> KernelTable_.lookup key tbl = None.
Proof.
  unfold registered. destruct (KernelTable_.lookup key tbl); split;
    congruence.
Qed.

(** X8: [removeIfExists] takes the kernel of the key away, whatever the
    table holds, and leaves the kernels of all other keys in place. *)
Theorem removeIfExists_removes_only_the_key tbl key name :
  let after := fst (KernelTable_.removeIfExists key name tbl) in
  KernelTable_.lookup key after = None
  /\ forall k, k <> key ->
       KernelTable_.lookup k after = KernelTable_.lookup k tbl.
Proof.
  cbv zeta. unfold KernelTable_.removeIfExists, KernelTable_.lookup.
  cbn [fst map_]. split.
  - apply find_erase_same.
  - intros k Hne. apply find_erase_other, Hne.
Qed.

(** X9: removing a key that has no kernel is a no-op: the table is the
    same afterwards and the internal assertion holds. *)
Theorem removeIfExists_absent_is_noop tbl key name :
  KernelTable_.lookup key tbl = None ->
  KernelTable_.removeIfExists key name tbl = (tbl, true).
Proof.
  intros Hl. unfold KernelTable_.removeIfExists.
  rewrite (erase_absent key (map_ tbl) Hl). cbn [fst snd].
  destruct tbl. reflexivity.
Qed.

(** X10: removing a key twice is removing it once: the second removal
    finds nothing, changes nothing and passes the internal assertion. *)
Theorem removeIfExists_idempotent tbl key name name' :
  let once := fst (KernelTable_.removeIfExists key name tbl) in
  KernelTable_.removeIfExists key name' once = (once, true).
Proof.
  cbv zeta. unfold KernelTable_.removeIfExists at 1.
  set (once := fst (KernelTable_.removeIfExists key name tbl)).
  assert (Hl : find key (map_ once) = None).
  { unfold once, KernelTable_.removeIfExists. cbn [fst map_].
    apply find_erase_same. }
  rewrite (erase_absent key (map_ once) Hl). cbn [fst snd].
  destruct once. reflexivity.
Qed.

(** X11: on every table that registrations and removals build, the
    assertion of [removeIfExists] that at most one entry was removed
    holds; it fails on a table that holds two entries for the key. *)
Theorem removeIfExists_assertion tbl key name kernel kernel' :
  (reachable tbl -> snd (KernelTable_.removeIfExists key name tbl) = true)
  /\ snd (KernelTable_.removeIfExists key name
            (mkKernelTable [(key, kernel); (key, kernel')])) = false.
Proof.
  split.
  - intros Hr. unfold KernelTable_.removeIfExists. cbn [snd].
    apply Nat.leb_le, erase_at_most_one. apply reachable_unique_keys, Hr.
  - unfold KernelTable_.removeIfExists, erase.
    cbn [snd fst map_ List.filter]. rewrite N.eqb_refl. reflexivity.
Qed.

(** X12: [set] makes the table one entry larger when the key had no
    kernel, and leaves its size alone when it overwrites. *)
Theorem size_after_set tbl key kernel name :
  KernelTable_.size (fst (KernelTable_.set key kernel name tbl))
  = if registered tbl key then KernelTable_.size tbl
    else S (KernelTable_.size tbl).
Proof.
  unfold KernelTable_.size, size.
  destruct (registered tbl key) eqn:Hr.
  - apply registered_lookup in Hr. rewrite (set_present _ _ _ _ Hr).
    cbn [fst map_]. apply length_assign.
  - apply not_registered_lookup in Hr. rewrite (set_absent _ _ _ _ Hr).
    cbn [fst map_].
    rewrite (Permutation_length (layout_perm ((key, kernel) :: map_ tbl))).
    reflexivity.
Qed.

(** X13: on a table with unique keys, [removeIfExists] makes the table
    one entry smaller when the key had a kernel, and leaves its size alone
    otherwise. *)
Theorem size_after_removeIfExists tbl key name :
  unique_keys tbl ->
  KernelTable_.size tbl
  = if registered tbl key
    then S (KernelTable_.size (fst (KernelTable_.removeIfExists key name tbl)))
    else KernelTable_.size (fst (KernelTable_.removeIfExists key name tbl)).
Proof.
  intros Hnd. unfold KernelTable_.size, size.
  destruct (registered tbl key) eqn:Hr.
  - apply registered_keys in Hr.
    unfold KernelTable_.removeIfExists. cbn [fst map_].
    symmetry. apply erase_present; assumption.
  - apply not_registered_lookup in Hr.
    unfold KernelTable_.removeIfExists. cbn [fst map_].
    rewrite (erase_absent key (map_ tbl) Hr). reflexivity.
Qed.

(** X14: [set] warns exactly when the key already had a kernel; and an
    overwrite keeps the keys where they are in the iteration order, so the
    listing of the registered keys is the same before and after. *)
Theorem set_warns_exactly_on_overwrite tbl key kernel name :
  let after := KernelTable_.set key kernel name tbl in
  (snd after = [] <-> registered tbl key = false)
  /\ (registered tbl key = true ->
      snd after = [KernelTable_.overwrite_warning name key]
      /\ keys (map_ (fst after)) = keys (map_ tbl)
      /\ KernelTable_.list_all_dispatch_keys (fst after)
         = KernelTable_.list_all_dispatch_keys tbl).
Proof.
  cbv zeta. destruct (registered tbl key) eqn:Hr.
  - apply registered_lookup in Hr. rewrite (set_present _ _ _ _ Hr).
    cbn [fst snd map_]. split; [split; discriminate|]. intros _.
    split; [reflexivity|]. split; [apply keys_assign|].
    rewrite !listing_join. cbn [map_]. rewrite keys_assign. reflexivity.
  - apply not_registered_lookup in Hr. rewrite (set_absent _ _ _ _ Hr).
    cbn [snd]. split; [split; reflexivity | discriminate].
Qed.

(** X15: on a table with unique keys, registrations for two different
    keys commute: done in either order, every key finds the same kernel. *)
Theorem set_commutes tbl key1 key2 kernel1 kernel2 name1 name2 :
  unique_keys tbl -> key1 <> key2 ->
  forall k,
    KernelTable_.lookup k
      (fst (KernelTable_.set key1 kernel1 name1
              (fst (KernelTable_.set key2 kernel2 name2 tbl))))
    = KernelTable_.lookup k
        (fst (KernelTable_.set key2 kernel2 name2
                (fst (KernelTable_.set key1 kernel1 name1 tbl)))).
Proof.
  intros Hnd Hne k.
  pose proof (set_unique_keys key1 kernel1 name1 tbl Hnd) as Hnd1.
  pose proof (set_unique_keys key2 kernel2 name2 tbl Hnd) as Hnd2.
  destruct (N.eq_dec k key1) as [->|Hk1].
  - rewrite lookup_set_same.
    rewrite lookup_set_other by assumption.
    rewrite lookup_set_same. reflexivity.
  - rewrite (lookup_set_other key1) by assumption.
    destruct (N.eq_dec k key2) as [->|Hk2].
    + rewrite !lookup_set_same. reflexivity.
    + rewrite !lookup_set_other by assumption. reflexivity.
Qed.

(** X16: on a table with unique keys that has no kernel for a key,
    registering a kernel for the key and removing it again gives back a
    table in which every key finds what it found before, of the same size,
    and the removal passes its assertion. *)
Theorem set_then_removeIfExists tbl key kernel name :
  unique_keys tbl ->
  KernelTable_.lookup key tbl = None ->
  let removal :=
    KernelTable_.removeIfExists key name
      (fst (KernelTable_.set key kernel name tbl)) in
  (forall k, KernelTable_.lookup k (fst removal) = KernelTable_.lookup k tbl)
  /\ KernelTable_.size (fst removal) = KernelTable_.size tbl
  /\ snd removal = true.
Proof.
  intros Hnd Hl. cbv zeta.
  pose proof (set_unique_keys key kernel name tbl Hnd) as Hnd'.
  split; [|split].
  - intros k. unfold KernelTable_.removeIfExists. cbn [fst].
    unfold KernelTable_.lookup at 1. cbn [map_].
    destruct (N.eq_dec k key) as [->|Hk].
    + rewrite find_erase_same. symmetry. exact Hl.
    + rewrite find_erase_other by exact Hk.
      apply (lookup_set_other key kernel name tbl k Hnd Hk).
  - unfold KernelTable_.size, size, KernelTable_.removeIfExists.
    cbn [fst map_]. apply Nat.succ_inj.
    rewrite erase_present.
    + rewrite (set_absent _ _ _ _ Hl). cbn [fst map_].
      rewrite (Permutation_length (layout_perm ((key, kernel) :: map_ tbl))).
      reflexivity.
    + exact Hnd'.
    + apply find_is_Some.
      change (is_Some (KernelTable_.lookup key
                         (fst (KernelTable_.set key kernel name tbl)))).
      rewrite lookup_set_same. eauto.
  - unfold KernelTable_.removeIfExists. cbn [snd].
    apply Nat.leb_le, erase_at_most_one, Hnd'.
Qed.

End KernelTableMore.

(** ** Registration, removal and resolution together *)

Section DispatchMore.
Context `{Collaborators} `{HashLayout KernelFunction}.

Implicit Types (table : DispatchTable) (key : TensorTypeId)
  (kernel : KernelFunction) (name : string).

(** X17: once a kernel is set for a key, [dispatch_] returns it for that
    key, whatever the table held before and whether or not a catchall is
    registered; on a table with unique keys the other keys that had a
    kernel still get theirs. *)
Theorem set_kernel_is_dispatched table key kernel name :
  let table' :=
    with_kernels (fst (KernelTable_.set key kernel name (kernels_ table)))
      table in
  Dispatcher.dispatch_ table' (Some key) = Returned kernel
  /\ (unique_keys (kernels_ table) ->
      forall k kernel', k <> key ->
        DispatchTable.lookup table k = Some kernel' ->
        Dispatcher.dispatch_ table' (Some k) = Returned kernel').
Proof.
  cbv zeta. split.
  - apply dispatch_backend. cbn [backend_kernel].
    unfold DispatchTable.lookup, with_kernels. cbn [kernels_].
    apply lookup_set_same.
  - intros Hnd k kernel' Hne Hl. apply dispatch_backend. cbn [backend_kernel].
    unfold DispatchTable.lookup, with_kernels. cbn [kernels_].
    rewrite lookup_set_other by assumption. exact Hl.
Qed.

(** X18: once the kernel of a key is removed, a call with that key gets
    the catchall kernel if one is registered; without a catchall it fails,
    with NoTaggedArguments if the key is the undefined id and with
    NoKernelFound for the key otherwise. *)
Theorem removed_kernel_falls_back table key name :
  let table' :=
    with_kernels
      (fst (KernelTable_.removeIfExists key name (kernels_ table))) table in
  (forall catchall,
     DispatchTable.lookupCatchallKernel table = Some catchall ->
     Dispatcher.dispatch_ table' (Some key) = Returned catchall)
  /\ (DispatchTable.lookupCatchallKernel table = None ->
      Dispatcher.dispatch_ table' (Some key)
      = Thrown
          (if key =? UndefinedTensorId
           then NoTaggedArguments (DispatchTable.operatorName table)
                  (DispatchTable.listAllDispatchKeys table')
           else NoKernelFound (DispatchTable.operatorName table)
                  (toString key)
                  (DispatchTable.listAllDispatchKeys table'))).
Proof.
  cbv zeta.
  set (table' := with_kernels _ table).
  assert (Hgone : DispatchTable.lookup table' key = None).
  { unfold table', DispatchTable.lookup, with_kernels,
      KernelTable_.removeIfExists, KernelTable_.lookup.
    cbn [kernels_ fst map_]. apply find_erase_same. }
  split.
  - intros catchall Hc. apply dispatch_catchall; [exact Hgone | exact Hc].
  - intros Hc.
    assert (Hc' : DispatchTable.lookupCatchallKernel table' = None)
      by exact Hc.
    destruct (N.eqb_spec key UndefinedTensorId) as [Heq|Hne].
    + subst key. rewrite (dispatch_undefined_key table' Hgone Hc').
      reflexivity.
    + rewrite (dispatch_no_kernel table' key Hne Hgone Hc'). reflexivity.
Qed.

(** X19: a call whose arguments carry no tag at all, such as one with an
    empty list of tensors, made on a thread without included tags, has the
    undefined id as its key; with no kernel for that id it gets the
    catchall kernel, and with no catchall either it fails with
    NoTaggedArguments. *)
Theorem call_without_tensors table (args : list Arg) :
  (forall t, existsb (fun a => carries a t) args = false) ->
  DispatchTable.lookup table UndefinedTensorId = None ->
  let dispatchKey :=
    Some (dispatchTypeId no_local (multi_dispatch_tensor_type_set args)) in
  dispatchKey = Some UndefinedTensorId
  /\ (forall catchall,
        DispatchTable.lookupCatchallKernel table = Some catchall ->
        Dispatcher.dispatch_ table dispatchKey = Returned catchall)
  /\ (DispatchTable.lookupCatchallKernel table = None ->
      Dispatcher.dispatch_ table dispatchKey
      = Thrown (NoTaggedArguments (DispatchTable.operatorName table)
                  (DispatchTable.listAllDispatchKeys table))).
Proof.
  intros Hnone Hl. cbv zeta.
  assert (Hkey : dispatchTypeId no_local (multi_dispatch_tensor_type_set args)
                 = UndefinedTensorId).
  { rewrite key_of_effective. apply TensorTypeSetFacts.no_member_undefined.
    intros t. rewrite has_no_local, has_multi_dispatch. apply Hnone. }
  rewrite Hkey. split; [reflexivity|]. split.
  - intros catchall Hc. apply dispatch_catchall; assumption.
  - intros Hc. apply dispatch_undefined_key; assumption.
Qed.

End DispatchMore.

(** ** Calls that find no kernel *)

Section CallMore.
Context `{Collaborators} `{HashLayout KernelFunction}.

(** X20: when the table of the operator has neither a kernel for the key
    of the call nor a catchall, the boxed and the typed calls throw the
    error of [dispatch_]: NoTaggedArguments for an absent or undefined
    key, NoKernelFound for any other.  No kernel runs, the dispatcher is
    left as it was and no event is raised. *)
Theorem call_without_kernel_throws (local : LocalTensorTypeSet)
    (h : OperatorHandle) (stack : Stack) (args : list Arg)
    (d : Dispatcher) (def : OperatorDef) :
  stdlist.deref (operatorIterator_ h) (operators_ d) = Some def ->
  let table := dispatchTable_ (op def) in
  let extractor := DispatchTable.dispatchKeyExtractor table in
  let error (dispatchKey : option TensorTypeId) : string :=
    match dispatchKey with
    | Some key =>
        if key =? UndefinedTensorId
        then NoTaggedArguments (DispatchTable.operatorName table)
               (DispatchTable.listAllDispatchKeys table)
        else NoKernelFound (DispatchTable.operatorName table) (toString key)
               (DispatchTable.listAllDispatchKeys table)
    | None =>
        NoTaggedArguments (DispatchTable.operatorName table)
          (DispatchTable.listAllDispatchKeys table)
    end in
  DispatchTable.lookupCatchallKernel table = None ->
  (backend_kernel table (getDispatchKeyBoxed extractor local stack) = None ->
   Dispatcher.callBoxed local h stack d
   = (d, [], Thrown (error (getDispatchKeyBoxed extractor local stack))))
  /\ (backend_kernel table (getDispatchKeyUnboxed extractor local args) = None ->
      Dispatcher.callUnboxed local h args d
      = (d, [], Thrown (error (getDispatchKeyUnboxed extractor local args)))
      /\ Dispatcher.callUnboxedOnly local h args d
         = (d, [], Thrown (error (getDispatchKeyUnboxed extractor local args)))).
Proof.
  intros Hd table extractor error Hc.
  assert (Hfail : forall dispatchKey,
            backend_kernel table dispatchKey = None ->
            Dispatcher.dispatch_ table dispatchKey = Thrown (error dispatchKey)).
  { intros [key|] Hb; unfold error.
    - destruct (N.eqb_spec key UndefinedTensorId) as [->|Hne].
      + apply dispatch_undefined_key; assumption.
      + apply dispatch_no_kernel; assumption.
    - apply dispatch_no_key, Hc. }
  split.
  - intros Hb. rewrite (callBoxed_resolves _ _ _ _ _ Hd).
    fold table. fold extractor. rewrite (Hfail _ Hb). reflexivity.
  - intros Hb.
    rewrite (callUnboxed_resolves _ _ _ _ _ Hd),
      (callUnboxedOnly_resolves _ _ _ _ _ Hd).
    fold table. fold extractor. rewrite (Hfail _ Hb). split; reflexivity.
Qed.

End CallMore.

(** ** The further properties on the sample setting *)

Section MoreSampleFacts.
#[local] Existing Instance Sample.collaborators.
#[local] Existing Instance Sample.newest_first.
Import TensorTypeSet.

(** X6 with the argument tag 1 against the argument tags 1 and 3. *)
Lemma key_monotone_witness :
  let ts := of_id 1 in
  let ts' := union (of_id 1) (of_id 3) in
  dispatchTypeId Sample.no_override ts <= dispatchTypeId Sample.no_override ts'
  /\ dispatchTypeId Sample.no_override ts = 1
  /\ dispatchTypeId Sample.no_override ts' = 3.
Proof.
  cbv zeta. split; [|split; reflexivity].
  apply (key_monotone Sample.no_override Sample.no_override
           (of_id 1) (union (of_id 1) (of_id 3))).
  - intros t Ht. rewrite TensorTypeSetFacts.has_union, Ht. reflexivity.
  - intros t Ht. exact Ht.
  - intros t Ht. exact Ht.
Defined.

(** X7 with the argument tags 3 and 1: excluding the key 3 gives the
    key 1, which is one of the tags. *)
Lemma excluding_the_key_witness :
  let ts := union (of_id 3) (of_id 1) in
  let effective :=
    minus (union ts (included_ Sample.no_override))
      (excluded_ Sample.no_override) in
  let key := dispatchTypeId Sample.no_override ts in
  let key' := dispatchTypeId (exclude key Sample.no_override) ts in
  key = 3 /\ key' = 1 /\ key' < key /\ has effective key' = true.
Proof.
  cbv zeta. split; [reflexivity|]. split; [reflexivity|].
  destruct (excluding_the_key_gives_the_next Sample.no_override
              (union (of_id 3) (of_id 1))) as (Hlt & _ & Hin & _).
  - discriminate.
  - split; [exact Hlt|]. apply Hin. discriminate.
Defined.

(** X9 on a table with a kernel for the tag 1, from which the tag 2 is
    removed. *)
Lemma removeIfExists_absent_witness :
  let tbl := Sample.table_of [(1, 10)] in
  KernelTable_.lookup 2 tbl = None
  /\ KernelTable_.removeIfExists 2 "aten::op" tbl = (tbl, true).
Proof.
  cbv zeta.
  assert (Hl : KernelTable_.lookup 2 (Sample.table_of [(1, 10)]) = None)
    by reflexivity.
  split; [exact Hl|].
  exact (removeIfExists_absent_is_noop _ 2 "aten::op" Hl).
Defined.

(** X13 on a table with kernels for the tags 1 and 2, from which the tag 1
    is removed. *)
Lemma size_after_removeIfExists_witness :
  let tbl := Sample.table_of [(1, 10); (2, 20)] in
  unique_keys tbl
  /\ KernelTable_.size tbl = 2%nat
  /\ KernelTable_.size tbl
     = S (KernelTable_.size
            (fst (KernelTable_.removeIfExists 1 "aten::op" tbl))).
Proof.
  cbv zeta.
  assert (Hnd : unique_keys (Sample.table_of [(1, 10); (2, 20)])).
  { apply reachable_unique_keys.
    repeat apply reachable_set. apply reachable_empty. }
  split; [exact Hnd|]. split; [reflexivity|].
  exact (size_after_removeIfExists _ 1 "aten::op" Hnd).
Defined.

(** X15 on a table with a kernel for the tag 3, to which the tags 1 and 2
    are added in both orders. *)
Lemma set_commutes_witness :
  let tbl := Sample.table_of [(3, 30)] in
  unique_keys tbl
  /\ forall k,
       KernelTable_.lookup k
         (fst (KernelTable_.set 1 (Sample.kernel 10) "aten::op"
                 (fst (KernelTable_.set 2 (Sample.kernel 20) "aten::op" tbl))))
       = KernelTable_.lookup k
           (fst (KernelTable_.set 2 (Sample.kernel 20) "aten::op"
                   (fst (KernelTable_.set 1 (Sample.kernel 10) "aten::op"
                           tbl)))).
Proof.
  cbv zeta.
  assert (Hnd : unique_keys (Sample.table_of [(3, 30)])).
  { apply reachable_unique_keys.
    repeat apply reachable_set. apply reachable_empty. }
  split; [exact Hnd|].
  apply (set_commutes _ 1 2 (Sample.kernel 10) (Sample.kernel 20)
           "aten::op" "aten::op" Hnd).
  discriminate.
Defined.

(** X16 on a table with a kernel for the tag 2: the tag 1 is registered
    and removed again. *)
Lemma set_then_removeIfExists_witness :
  let tbl := Sample.table_of [(2, 20)] in
  let removal :=
    KernelTable_.removeIfExists 1 "aten::op"
      (fst (KernelTable_.set 1 (Sample.kernel 10) "aten::op" tbl)) in
  (unique_keys tbl /\ KernelTable_.lookup 1 tbl = None)
  /\ (forall k, KernelTable_.lookup k (fst removal) = KernelTable_.lookup k tbl)
  /\ KernelTable_.size (fst removal) = KernelTable_.size tbl
  /\ snd removal = true.
Proof.
  cbv zeta.
  assert (Hnd : unique_keys (Sample.table_of [(2, 20)])).
  { apply reachable_unique_keys.
    repeat apply reachable_set. apply reachable_empty. }
  assert (Hl : KernelTable_.lookup 1 (Sample.table_of [(2, 20)]) = None)
    by reflexivity.
  split; [split; assumption|].
  exact (set_then_removeIfExists _ 1 (Sample.kernel 10) "aten::op" Hnd Hl).
Defined.

(** X19 on a call with an empty list of tensors and a number. *)
Lemma call_without_tensors_witness :
  let table := Sample.dispatch_table [(1, 10)] None in
  let dispatchKey :=
    Some (dispatchTypeId no_local
            (multi_dispatch_tensor_type_set MoreSamples.no_tensors)) in
  (forall t, existsb (fun a => carries a t) MoreSamples.no_tensors = false)
  /\ dispatchKey = Some UndefinedTensorId
  /\ Dispatcher.dispatch_ table dispatchKey
     = Thrown (NoTaggedArguments "aten::op" "[1]").
Proof.
  cbv zeta.
  assert (Hnone : forall t,
            existsb (fun a => carries a t) MoreSamples.no_tensors = false)
    by (intros t; reflexivity).
  destruct (call_without_tensors (Sample.dispatch_table [(1, 10)] None)
              MoreSamples.no_tensors Hnone eq_refl) as (Hkey & _ & Hfail).
  split; [exact Hnone|]. split; [exact Hkey|].
  apply Hfail. reflexivity.
Defined.

(** X20 on an operator with a kernel for the tag 1 only, called with
    tensors of the tags 2 and 1. *)
Lemma call_without_kernel_witness :
  let d := Sample.registry [(1, 10)] None in
  Dispatcher.callBoxed Sample.no_override Sample.handle
    Sample.two_tags_stack d
  = (d, [], Thrown (NoKernelFound "aten::op" "2" "[1]"))
  /\ Dispatcher.callUnboxed Sample.no_override Sample.handle Sample.two_tags d
     = (d, [], Thrown (NoKernelFound "aten::op" "2" "[1]")).
Proof.
  cbv zeta.
  destruct (call_without_kernel_throws Sample.no_override Sample.handle
              Sample.two_tags_stack Sample.two_tags
              (Sample.registry [(1, 10)] None) _ eq_refl eq_refl)
    as (Hboxed & Hunboxed).
  split.
  - apply Hboxed. reflexivity.
  - apply Hunboxed. reflexivity.
Defined.

End MoreSampleFacts.
